(** * Civil-time field normalization (cctz, [civil_time_detail.h])

    A shallow embedding of the header's normalization cascade, the
    alignment-indexed [civil_time] value type and its operators, followed by
    the properties established about them.

    The C++ type [int] is taken to be the 32-bit two's-complement integer:
    every arithmetic result is reduced into [[-2^31, 2^31)] by [wrap];
    division and remainder truncate toward zero ([Z.quot], [Z.rem]). *)

From Stdlib Require Import ZArith List Bool Lia.
Import ListNotations.
Local Open Scope Z_scope.

(** ** Machine integers *)

Definition int_min : Z := -2147483648.
Definition int_max : Z := 2147483647.

Definition in_int (z : Z) : Prop := int_min <= z <= int_max.

Definition wrap (z : Z) : Z := (z + 2147483648) mod 4294967296 - 2147483648.

Module Int.
Definition add (a b : Z) : Z := wrap (a + b).
Definition sub (a b : Z) : Z := wrap (a - b).
Definition mul (a b : Z) : Z := wrap (a * b).
Definition neg (a : Z) : Z := wrap (- a).
Definition div (a b : Z) : Z := wrap (Z.quot a b).
Definition rem (a b : Z) : Z := Z.rem a b.
(** A C++ [bool] promoted to [int]. *)
Definition of_bool (b : bool) : Z := if b then 1 else 0.
End Int.

Declare Scope int_scope.
Delimit Scope int_scope with int.
Infix "+i" := Int.add (at level 50, left associativity) : int_scope.
Infix "-i" := Int.sub (at level 50, left associativity) : int_scope.
Infix "*i" := Int.mul (at level 40, left associativity) : int_scope.
Infix "/i" := Int.div (at level 40, left associativity) : int_scope.
Infix "%i" := Int.rem (at level 40, left associativity) : int_scope.
Local Open Scope int_scope.

(** ** Normalized civil-time fields: Y-M-D HH:MM:SS *)

Record fields : Set := Fields {
  y : Z;
  m : Z;
  d : Z;
  hh : Z;
  mm : Z;
  ss : Z
}.

Inductive tag : Set :=
| second_tag
| minute_tag
| hour_tag
| day_tag
| month_tag
| year_tag.

(** ** Leap years and period tables *)

Definition is_leap_year (y : Z) : bool :=
  (y %i 4 =? 0) && (negb (y %i 100 =? 0) || (y %i 400 =? 0)).

Definition year_index (y m : Z) : Z :=
  (((y +i Int.of_bool (m >? 2)) %i 400) +i 400) %i 400.

(** Array subscripting; the index is always within bounds on the paths
    taken by the normalizer. *)
Definition subscript (table : list Z) (i : Z) : Z :=
  nth (Z.to_nat i) table 0.

Definition k_days_per_century : list Z := [
    1; 0; 0; 0; 0; 0; 0; 0; 0; 0; 0; 0; 0; 0; 0; 0; 0; 0; 0; 0; 0; 0; 0; 0;
    0; 0; 0; 0; 0; 0; 0; 0; 0; 0; 0; 0; 0; 0; 0; 0; 0; 0; 0; 0; 0; 0; 0; 0;
    0; 0; 0; 0; 0; 0; 0; 0; 0; 0; 0; 0; 0; 0; 0; 0; 0; 0; 0; 0; 0; 0; 0; 0;
    0; 0; 0; 0; 0; 0; 0; 0; 0; 0; 0; 0; 0; 0; 0; 0; 0; 0; 0; 0; 0; 0; 0; 0;
    0; 0; 0; 0; 0; 0; 0; 0; 0; 0; 0; 0; 0; 0; 0; 0; 0; 0; 0; 0; 0; 0; 0; 0;
    0; 0; 0; 0; 0; 0; 0; 0; 0; 0; 0; 0; 0; 0; 0; 0; 0; 0; 0; 0; 0; 0; 0; 0;
    0; 0; 0; 0; 0; 0; 0; 0; 0; 0; 0; 0; 0; 0; 0; 0; 0; 0; 0; 0; 0; 0; 0; 0;
    0; 0; 0; 0; 0; 0; 0; 0; 0; 0; 0; 0; 0; 0; 0; 0; 0; 0; 0; 0; 0; 0; 0; 0;
    0; 0; 0; 0; 0; 0; 0; 0; 0; 0; 0; 0; 0; 0; 0; 0; 0; 0; 0; 0; 0; 0; 0; 0;
    0; 0; 0; 0; 0; 0; 0; 0; 0; 0; 0; 0; 0; 0; 0; 0; 0; 0; 0; 0; 0; 0; 0; 0;
    0; 0; 0; 0; 0; 0; 0; 0; 0; 0; 0; 0; 0; 0; 0; 0; 0; 0; 0; 0; 0; 0; 0; 0;
    0; 0; 0; 0; 0; 0; 0; 0; 0; 0; 0; 0; 0; 0; 0; 0; 0; 0; 0; 0; 0; 0; 0; 0;
    0; 0; 0; 0; 0; 0; 0; 0; 0; 0; 0; 0; 0; 1; 1; 1; 1; 1; 1; 1; 1; 1; 1; 1;
    1; 1; 1; 1; 1; 1; 1; 1; 1; 1; 1; 1; 1; 1; 1; 1; 1; 1; 1; 1; 1; 1; 1; 1;
    1; 1; 1; 1; 1; 1; 1; 1; 1; 1; 1; 1; 1; 1; 1; 1; 1; 1; 1; 1; 1; 1; 1; 1;
    1; 1; 1; 1; 1; 1; 1; 1; 1; 1; 1; 1; 1; 1; 1; 1; 1; 1; 1; 1; 1; 1; 1; 1;
    1; 1; 1; 1; 1; 1; 1; 1; 1; 1; 1; 1; 1; 1; 1; 1
  ].

Definition days_per_century (y m : Z) : Z :=
  36524 +i subscript k_days_per_century (year_index y m).

Definition k_days_per_4years : list Z := [
    1; 1; 1; 1; 1; 1; 1; 1; 1; 1; 1; 1; 1; 1; 1; 1; 1; 1; 1; 1; 1; 1; 1; 1;
    1; 1; 1; 1; 1; 1; 1; 1; 1; 1; 1; 1; 1; 1; 1; 1; 1; 1; 1; 1; 1; 1; 1; 1;
    1; 1; 1; 1; 1; 1; 1; 1; 1; 1; 1; 1; 1; 1; 1; 1; 1; 1; 1; 1; 1; 1; 1; 1;
    1; 1; 1; 1; 1; 1; 1; 1; 1; 1; 1; 1; 1; 1; 1; 1; 1; 1; 1; 1; 1; 1; 1; 1;
    1; 0; 0; 0; 0; 1; 1; 1; 1; 1; 1; 1; 1; 1; 1; 1; 1; 1; 1; 1; 1; 1; 1; 1;
    1; 1; 1; 1; 1; 1; 1; 1; 1; 1; 1; 1; 1; 1; 1; 1; 1; 1; 1; 1; 1; 1; 1; 1;
    1; 1; 1; 1; 1; 1; 1; 1; 1; 1; 1; 1; 1; 1; 1; 1; 1; 1; 1; 1; 1; 1; 1; 1;
    1; 1; 1; 1; 1; 1; 1; 1; 1; 1; 1; 1; 1; 1; 1; 1; 1; 1; 1; 1; 1; 1; 1; 1;
    1; 1; 1; 1; 1; 0; 0; 0; 0; 1; 1; 1; 1; 1; 1; 1; 1; 1; 1; 1; 1; 1; 1; 1;
    1; 1; 1; 1; 1; 1; 1; 1; 1; 1; 1; 1; 1; 1; 1; 1; 1; 1; 1; 1; 1; 1; 1; 1;
    1; 1; 1; 1; 1; 1; 1; 1; 1; 1; 1; 1; 1; 1; 1; 1; 1; 1; 1; 1; 1; 1; 1; 1;
    1; 1; 1; 1; 1; 1; 1; 1; 1; 1; 1; 1; 1; 1; 1; 1; 1; 1; 1; 1; 1; 1; 1; 1;
    1; 1; 1; 1; 1; 1; 1; 1; 1; 0; 0; 0; 0; 1; 1; 1; 1; 1; 1; 1; 1; 1; 1; 1;
    1; 1; 1; 1; 1; 1; 1; 1; 1; 1; 1; 1; 1; 1; 1; 1; 1; 1; 1; 1; 1; 1; 1; 1;
    1; 1; 1; 1; 1; 1; 1; 1; 1; 1; 1; 1; 1; 1; 1; 1; 1; 1; 1; 1; 1; 1; 1; 1;
    1; 1; 1; 1; 1; 1; 1; 1; 1; 1; 1; 1; 1; 1; 1; 1; 1; 1; 1; 1; 1; 1; 1; 1;
    1; 1; 1; 1; 1; 1; 1; 1; 1; 1; 1; 1; 1; 1; 1; 1
  ].

Definition days_per_4years (y m : Z) : Z :=
  1460 +i subscript k_days_per_4years (year_index y m).

Definition days_per_year (y m : Z) : Z :=
  if is_leap_year (y +i Int.of_bool (m >? 2)) then 366 else 365.

Definition k_dpm : list Z := [31; 28; 31; 30; 31; 30; 31; 31; 30; 31; 30; 31].

Definition days_per_month (y m : Z) : Z :=
  subscript k_dpm (m -i 1) +i Int.of_bool ((m =? 2) && is_leap_year y).

(** ** Field normalization *)

(** The local variables of [n_day] carried around its four loops. *)
Record locals : Set := Locals {
  l_y : Z;
  l_m : Z;
  l_d : Z;
  l_n : Z
}.

(** [while (cond) body], unrolled at most [fuel] times. *)
Fixpoint while_loop {A : Type} (fuel : nat) (cond : A -> bool)
    (body : A -> A) (s : A) : A :=
  match fuel with
  | O => s
  | S fuel' => if cond s then while_loop fuel' cond body (body s) else s
  end.

(** Every loop of [n_day] has the guard [d > n] and lowers [d] by [n]; the
    remaining day count is therefore a bound on the number of iterations
    (see [while_days_exit]). *)
Definition while_days (body : locals -> locals) (s : locals) : locals :=
  while_loop (Z.to_nat (l_d s)) (fun s => l_d s >? l_n s) body s.

Definition century_body (s : locals) : locals :=
  let d := l_d s -i l_n s in
  let y := l_y s +i 100 in
  Locals y (l_m s) d (days_per_century y (l_m s)).

Definition four_years_body (s : locals) : locals :=
  let d := l_d s -i l_n s in
  let y := l_y s +i 4 in
  Locals y (l_m s) d (days_per_4years y (l_m s)).

Definition year_body (s : locals) : locals :=
  let d := l_d s -i l_n s in
  let y := l_y s +i 1 in
  Locals y (l_m s) d (days_per_year y (l_m s)).

Definition month_body (s : locals) : locals :=
  let d := l_d s -i l_n s in
  if l_m s =? 12 then
    let y := l_y s +i 1 in
    Locals y 1 d (days_per_month y 1)
  else
    let m := l_m s +i 1 in
    Locals (l_y s) m d (days_per_month (l_y s) m).

Definition n_day (y m d c hh mm ss : Z) : fields :=
  let y := y +i (c /i 146097) *i 400 in
  let c := c %i 146097 in
  let '(y, c) := if c <? 0 then (y -i 400, c +i 146097) else (y, c) in
  let y := y +i (d /i 146097) *i 400 in
  let d := d %i 146097 +i c in
  let '(y, d) := if d <=? 0 then (y -i 400, d +i 146097) else (y, d) in
  let s := Locals y m d (days_per_century y m) in
  let s := while_days century_body s in
  let s := Locals (l_y s) (l_m s) (l_d s) (days_per_4years (l_y s) (l_m s)) in
  let s := while_days four_years_body s in
  let s := Locals (l_y s) (l_m s) (l_d s) (days_per_year (l_y s) (l_m s)) in
  let s := while_days year_body s in
  let s := Locals (l_y s) (l_m s) (l_d s) (days_per_month (l_y s) (l_m s)) in
  let s := while_days month_body s in
  Fields (l_y s) (l_m s) (l_d s) hh mm ss.

Definition n_mon (y m d cd hh mm ss : Z) : fields :=
  let y := y +i m /i 12 in
  let m := m %i 12 in
  let '(y, m) := if m <=? 0 then (y -i 1, m +i 12) else (y, m) in
  n_day y m d cd hh mm ss.

Definition n_hour (y m d c hh mm ss : Z) : fields :=
  let c := c +i hh /i 24 in
  let hh := hh %i 24 in
  let '(c, hh) := if hh <? 0 then (c -i 1, hh +i 24) else (c, hh) in
  n_mon y m d c hh mm ss.

Definition n_min (y m d hh c mm ss : Z) : fields :=
  let c := c +i mm /i 60 in
  let mm := mm %i 60 in
  let '(c, mm) := if mm <? 0 then (c -i 1, mm +i 60) else (c, mm) in
  n_hour y m d (hh /i 24 +i c /i 24) (hh %i 24 +i c %i 24) mm ss.

Definition n_sec (y m d hh mm ss : Z) : fields :=
  let c := ss /i 60 in
  let ss := ss %i 60 in
  let '(c, ss) := if ss <? 0 then (c -i 1, ss +i 60) else (c, ss) in
  n_min y m d hh (mm /i 60 +i c /i 60) (mm %i 60 +i c %i 60) ss.

(** ** Day ordinals

    Map a (normalized) Y/M/D to the number of days before/after 1970-01-01. *)

Definition doy (m d : Z) : Z :=
  (153 *i (m +i (if m >? 2 then -3 else 9)) +i 2) /i 5 +i d -i 1.

Definition doe (yoe m d : Z) : Z :=
  yoe *i 365 +i yoe /i 4 -i yoe /i 100 +i doy m d.

Definition era_eymd_ord (era eyear m d : Z) : Z :=
  era *i 146097 +i doe (eyear -i era *i 400) m d -i 719468.

Definition eymd_ord (eyear m d : Z) : Z :=
  era_eymd_ord ((if eyear >=? 0 then eyear else eyear -i 399) /i 400)
               eyear m d.

Definition ymd_ord (y m d : Z) : Z :=
  eymd_ord (if m <=? 2 then y -i 1 else y) m d.

(** ** Alignment, stepping and differences on field tuples *)

Definition align (T : tag) (f : fields) : fields :=
  match T with
  | second_tag => f
  | minute_tag => Fields (y f) (m f) (d f) (hh f) (mm f) 0
  | hour_tag => Fields (y f) (m f) (d f) (hh f) 0 0
  | day_tag => Fields (y f) (m f) (d f) 0 0 0
  | month_tag => Fields (y f) (m f) 1 0 0 0
  | year_tag => Fields (y f) 1 1 0 0 0
  end.

(** Increments the indicated (normalized) field by [n]. *)
Definition step (T : tag) (f : fields) (n : Z) : fields :=
  match T with
  | second_tag =>
      n_sec (y f) (m f) (d f) (hh f) (mm f +i n /i 60) (ss f +i n %i 60)
  | minute_tag =>
      n_min (y f) (m f) (d f) (hh f +i n /i 60) 0 (mm f +i n %i 60) (ss f)
  | hour_tag =>
      n_hour (y f) (m f) (d f +i n /i 24) 0 (hh f +i n %i 24) (mm f) (ss f)
  | day_tag =>
      n_day (y f) (m f) (d f) n (hh f) (mm f) (ss f)
  | month_tag =>
      n_mon (y f +i n /i 12) (m f +i n %i 12) (d f) 0 (hh f) (mm f) (ss f)
  | year_tag =>
      Fields (y f +i n) (m f) (d f) (hh f) (mm f) (ss f)
  end.

(** The difference between field tuples in the indicated unit. *)
Definition difference_year (f1 f2 : fields) : Z :=
  y f1 -i y f2.

Definition difference_month (f1 f2 : fields) : Z :=
  difference_year f1 f2 *i 12 +i (m f1 -i m f2).

Definition difference_day (f1 f2 : fields) : Z :=
  ymd_ord (y f1) (m f1) (d f1) -i ymd_ord (y f2) (m f2) (d f2).

Definition difference_hour (f1 f2 : fields) : Z :=
  difference_day f1 f2 *i 24 +i (hh f1 -i hh f2).

Definition difference_minute (f1 f2 : fields) : Z :=
  difference_hour f1 f2 *i 60 +i (mm f1 -i mm f2).

Definition difference_second (f1 f2 : fields) : Z :=
  difference_minute f1 f2 *i 60 +i (ss f1 -i ss f2).

Definition difference (T : tag) (f1 f2 : fields) : Z :=
  match T with
  | year_tag => difference_year f1 f2
  | month_tag => difference_month f1 f2
  | day_tag => difference_day f1 f2
  | hour_tag => difference_hour f1 f2
  | minute_tag => difference_minute f1 f2
  | second_tag => difference_second f1 f2
  end.

(** ** The civil-time value type

    [civil_time T] owns one field tuple; the alignment [T] is a type index. *)

Record civil_time (T : tag) : Set := CivilTime { f_ : fields }.
Arguments CivilTime {T} _.
Arguments f_ {T} _.

(** The designated constructor that all others eventually call. *)
Definition of_fields (T : tag) (f : fields) : civil_time T :=
  CivilTime (align T f).

(** [civil_time(y, m = 1, d = 1, hh = 0, mm = 0, ss = 0)]. *)
Definition make (T : tag) (y m d hh mm ss : Z) : civil_time T :=
  of_fields T (n_sec y m d hh mm ss).

(** [civil_time()]. *)
Definition default (T : tag) : civil_time T := make T 1970 1 1 0 0 0.

(** Conversion between civil times of different alignment. *)
Definition convert {U : tag} (T : tag) (ct : civil_time U) : civil_time T :=
  of_fields T (f_ ct).

Abbreviation civil_year := (civil_time year_tag).
Abbreviation civil_month := (civil_time month_tag).
Abbreviation civil_day := (civil_time day_tag).
Abbreviation civil_hour := (civil_time hour_tag).
Abbreviation civil_minute := (civil_time minute_tag).
Abbreviation civil_second := (civil_time second_tag).

Section Operators.
Context {T : tag}.

(** Field accessors. *)
Definition year (a : civil_time T) : Z := y (f_ a).
Definition month (a : civil_time T) : Z := m (f_ a).
Definition day (a : civil_time T) : Z := d (f_ a).
Definition hour (a : civil_time T) : Z := hh (f_ a).
Definition minute (a : civil_time T) : Z := mm (f_ a).
Definition second (a : civil_time T) : Z := ss (f_ a).

(** [operator+=]: the stepped value replaces the stored tuple. *)
Definition plus_assign (a : civil_time T) (n : Z) : civil_time T :=
  CivilTime (step T (f_ a) n).

(** [operator-=]. *)
Definition minus_assign (a : civil_time T) (n : Z) : civil_time T :=
  if negb (n =? int_min) then
    CivilTime (step T (f_ a) (Int.neg n))
  else
    CivilTime (step T (step T (f_ a) (Int.neg (n +i 1))) 1).

(** Binary [operator+] and [operator-] with an [int]. *)
Definition plus (a : civil_time T) (n : Z) : civil_time T :=
  of_fields T (step T (f_ a) n).

Definition minus (a : civil_time T) (n : Z) : civil_time T :=
  of_fields T (step T (f_ a) (Int.neg n)).

(** Binary [operator-] between two values of the same alignment. *)
Definition diff (lhs rhs : civil_time T) : Z :=
  difference T (f_ lhs) (f_ rhs).
End Operators.

(** Relational operators that work with differently aligned objects. *)
Section Relational.
Context {T1 T2 : tag}.

Definition lt (lhs : civil_time T1) (rhs : civil_time T2) : bool :=
  (year lhs <? year rhs) ||
  ((year lhs =? year rhs) &&
   ((month lhs <? month rhs) ||
    ((month lhs =? month rhs) &&
     ((day lhs <? day rhs) ||
      ((day lhs =? day rhs) &&
       ((hour lhs <? hour rhs) ||
        ((hour lhs =? hour rhs) &&
         ((minute lhs <? minute rhs) ||
          ((minute lhs =? minute rhs) &&
           (second lhs <? second rhs)))))))))).

Definition eq (lhs : civil_time T1) (rhs : civil_time T2) : bool :=
  (year lhs =? year rhs) && (month lhs =? month rhs) &&
  (day lhs =? day rhs) && (hour lhs =? hour rhs) &&
  (minute lhs =? minute rhs) && (second lhs =? second rhs).

Definition ne (lhs : civil_time T1) (rhs : civil_time T2) : bool :=
  negb (eq lhs rhs).
End Relational.

Section RelationalDerived.
Context {T1 T2 : tag}.

Definition le (lhs : civil_time T1) (rhs : civil_time T2) : bool :=
  negb (lt rhs lhs).
Definition ge (lhs : civil_time T1) (rhs : civil_time T2) : bool :=
  negb (lt lhs rhs).
Definition gt (lhs : civil_time T1) (rhs : civil_time T2) : bool :=
  lt rhs lhs.
End RelationalDerived.

(** ** Weekdays *)

Inductive weekday : Set :=
| monday
| tuesday
| wednesday
| thursday
| friday
| saturday
| sunday.

Definition k_weekday_by_thu_off : list weekday :=
  [thursday; friday; saturday; sunday; monday; tuesday; wednesday].

Definition get_weekday (cd : civil_day) : weekday :=
  nth (Z.to_nat (((diff cd (default day_tag) %i 7) +i 7) %i 7))
      k_weekday_by_thu_off thursday.

Definition get_yearday (cd : civil_day) : Z :=
  diff cd (convert day_tag (convert year_tag cd)) +i 1.

(** * Specification-level definitions *)

(** The Gregorian leap-year rule over unbounded integers, with floored
    remainders. *)
Definition leap_year (Y : Z) : bool :=
  (Y mod 4 =? 0) && (negb (Y mod 100 =? 0) || (Y mod 400 =? 0)).

(** The day ordinal of §4.2 of the specification, over unbounded integers:
    January and February belong to the previous civil year, the era is the
    floored quotient of that year by 400, and the ordinal is
    [era * 146097 + day-of-era - 719468]. *)
Definition day_ordinal (Y M D : Z) : Z :=
  let cy := if M <=? 2 then Y - 1 else Y in
  let era := cy / 400 in
  let yoe := cy - era * 400 in
  let doy := (153 * (M + (if M >? 2 then -3 else 9)) + 2) / 5 + D - 1 in
  let doe := yoe * 365 + yoe / 4 - yoe / 100 + doy in
  era * 146097 + doe - 719468.

(** A month in [1, 12] and a day that exists in that month. *)
Definition valid_date (Y M D : Z) : Prop :=
  1 <= M <= 12 /\ 1 <= D <= days_per_month Y M.

(** Days before 1 March of civil year [cy], counted from 1 March of year 0. *)
Definition days_before_year (cy : Z) : Z :=
  365 * cy + cy / 4 - cy / 100 + cy / 400.

(** The civil year that starts on 1 March, and the month and day counted
    within it. *)
Definition shifted_year (Y M : Z) : Z := if M <=? 2 then Y - 1 else Y.
Definition shifted_month (M : Z) : Z := M + (if M >? 2 then -3 else 9).
Definition day_of_year (M D : Z) : Z :=
  (153 * shifted_month M + 2) / 5 + D - 1.

(** The invariant of the four loops of [n_day].  The first three parts hold
    for every input; under the guard [G], which says that the year cannot
    leave the [int] range, the loops also keep the day ordinal [K] and
    account for every year and month they skip. *)
Definition day_inv (G : Prop) (K y0 m0 d0 : Z) (s : locals) : Prop :=
  in_int (l_y s) /\ 1 <= l_m s <= 12 /\ 1 <= l_d s <= 292193 /\
  (G ->
   y0 <= l_y s /\
   28 * (12 * (l_y s - y0) + (l_m s - m0)) + l_d s <= d0 /\
   day_ordinal (l_y s) (l_m s) (l_d s) = K).

(** The common shape of the century, four-year and year loops. *)
Definition jump_body (k : Z) (f : Z -> Z -> Z) (s : locals) : locals :=
  let d := l_d s -i l_n s in
  let y := l_y s +i k in
  Locals y (l_m s) d (f y (l_m s)).

(** The straight-line prefix of [n_day], and its four loops. *)
Definition n_day_head (y d c : Z) : Z * Z :=
  let y := y +i (c /i 146097) *i 400 in
  let c := c %i 146097 in
  let '(y, c) := if c <? 0 then (y -i 400, c +i 146097) else (y, c) in
  let y := y +i (d /i 146097) *i 400 in
  let d := d %i 146097 +i c in
  if d <=? 0 then (y -i 400, d +i 146097) else (y, d).

Definition n_day_loops (y m d : Z) : locals :=
  let s := Locals y m d (days_per_century y m) in
  let s := while_days century_body s in
  let s := Locals (l_y s) (l_m s) (l_d s) (days_per_4years (l_y s) (l_m s)) in
  let s := while_days four_years_body s in
  let s := Locals (l_y s) (l_m s) (l_d s) (days_per_year (l_y s) (l_m s)) in
  let s := while_days year_body s in
  let s := Locals (l_y s) (l_m s) (l_d s) (days_per_month (l_y s) (l_m s)) in
  while_days month_body s.

(** Months folded into years by floored division, as the specification
    words it. *)
Definition norm_year (Y M : Z) : Z := Y + (M - 1) / 12.
Definition norm_month (M : Z) : Z := (M - 1) mod 12 + 1.

(** The ordinal of day [D] counted from the first of month [M] of year [Y],
    where neither [M] nor [D] need be in range. *)
Definition raw_ordinal (Y M D : Z) : Z :=
  day_ordinal (norm_year Y M) (norm_month M) D.

(** Years, and day carries, from which no stage can leave the [int] range. *)
Definition year_ok (Y : Z) : Prop := -1900000000 <= Y <= 1900000000.
Definition carry_ok (C : Z) : Prop := -2000000000 <= C <= 2000000000.

(** The canonical ranges of §3 of the specification. *)
Definition canonical (f : fields) : Prop :=
  1 <= m f <= 12 /\ 1 <= d f <= days_per_month (y f) (m f) /\
  0 <= hh f < 24 /\ 0 <= mm f < 60 /\ 0 <= ss f < 60.

(** Every field below the alignment is at its minimum. *)
Definition aligned (T : tag) (f : fields) : Prop :=
  match T with
  | second_tag => True
  | minute_tag => ss f = 0
  | hour_tag => mm f = 0 /\ ss f = 0
  | day_tag => hh f = 0 /\ mm f = 0 /\ ss f = 0
  | month_tag => d f = 1 /\ hh f = 0 /\ mm f = 0 /\ ss f = 0
  | year_tag => m f = 1 /\ d f = 1 /\ hh f = 0 /\ mm f = 0 /\ ss f = 0
  end.

(** What every stored tuple satisfies. *)
Definition well_formed (T : tag) (f : fields) : Prop :=
  in_int (y f) /\ canonical f /\ aligned T f.

(** The values a program can hold: built by a constructor, a conversion or
    an arithmetic operator, from [int] arguments. *)
Inductive reachable : forall T : tag, civil_time T -> Prop :=
| reach_make T Y M D H Mi S :
    in_int Y -> in_int M -> in_int D -> in_int H -> in_int Mi -> in_int S ->
    reachable T (make T Y M D H Mi S)
| reach_convert T U (ct : civil_time U) :
    reachable U ct -> reachable T (convert T ct)
| reach_plus_assign T (a : civil_time T) n :
    reachable T a -> in_int n -> reachable T (plus_assign a n)
| reach_minus_assign T (a : civil_time T) n :
    reachable T a -> in_int n -> reachable T (minus_assign a n)
| reach_plus T (a : civil_time T) n :
    reachable T a -> in_int n -> reachable T (plus a n)
| reach_minus T (a : civil_time T) n :
    reachable T a -> in_int n -> reachable T (minus a n).

(** The position of a tuple on the time line, in units of the alignment. *)
Definition units (T : tag) (f : fields) : Z :=
  let days := day_ordinal (y f) (m f) (d f) in
  match T with
  | second_tag => ((days * 24 + hh f) * 60 + mm f) * 60 + ss f
  | minute_tag => (days * 24 + hh f) * 60 + mm f
  | hour_tag => days * 24 + hh f
  | day_tag => days
  | month_tag => 12 * y f + (m f - 1)
  | year_tag => y f
  end.

(** Years from which three steps of any [int] size stay representable.  The
    range the source documents for day ordinals, years -5877641 to 5881580,
    lies well inside. *)
Definition safe_year (Y : Z) : Prop := -1000000000 <= Y <= 1000000000.

(** Years from which one step of any [int] size stays representable. *)
Definition year_step_ok (Y : Z) : Prop := -1700000000 <= Y <= 1700000000.

(** The canonical tuple that §4.1 of the specification prescribes for the
    raw fields, over unbounded integers: floored carries from seconds up to
    hours, the month folded into the year, and the day count added on the
    day-ordinal line. *)
Definition reference (Y M D H Mi S : Z) (r : fields) : Prop :=
  canonical r /\
  ss r = S mod 60 /\
  mm r = (Mi + S / 60) mod 60 /\
  hh r = (H + (Mi + S / 60) / 60) mod 24 /\
  day_ordinal (y r) (m r) (d r) =
    day_ordinal (Y + (M - 1) / 12) ((M - 1) mod 12 + 1) 1
    + (D - 1) + (H + (Mi + S / 60) / 60) / 24.

(** The six stored fields, most significant first. *)
Definition field_list {T : tag} (a : civil_time T) : list Z :=
  [year a; month a; day a; hour a; minute a; second a].

(** Lexicographic comparison of two field lists, most significant first. *)
Fixpoint lex_compare (l1 l2 : list Z) : comparison :=
  match l1, l2 with
  | [], [] => Eq
  | [], _ :: _ => Lt
  | _ :: _, [] => Gt
  | x1 :: l1', x2 :: l2' =>
      match x1 ?= x2 with
      | Eq => lex_compare l1' l2'
      | c => c
      end
  end.

(** The three outcomes of a comparison as booleans. *)
Definition is_lt (c : comparison) : bool :=
  match c with Lt => true | _ => false end.
Definition is_eq (c : comparison) : bool :=
  match c with Eq => true | _ => false end.
Definition is_gt (c : comparison) : bool :=
  match c with Gt => true | _ => false end.

(** The exact day ordinal of the date a value holds. *)
Definition ordinal_of {T : tag} (a : civil_time T) : Z :=
  day_ordinal (year a) (month a) (day a).

(** A loop invariant together with the loop's cached period length. *)
Definition loop_inv (G : Prop) (K y0 m0 d0 : Z) (f : Z -> Z -> Z)
    (s : locals) : Prop :=
  day_inv G K y0 m0 d0 s /\ l_n s = f (l_y s) (l_m s).

(** ** Further operations of the header *)

(** The tag hierarchy: every tag derives from the next finer one, so a tag
    has as many base classes as there are finer alignments. *)
Definition base_count (T : tag) : nat :=
  match T with
  | second_tag => 0
  | minute_tag => 1
  | hour_tag => 2
  | day_tag => 3
  | month_tag => 4
  | year_tag => 5
  end.

(** [std::is_base_of<U, S>] on the tags. *)
Definition is_base_of (U S : tag) : bool :=
  (base_count U <=? base_count S)%nat.

(** The enumerators of [weekday] and the comparison [!=] on them. *)
Definition weekday_value (wd : weekday) : Z :=
  match wd with
  | monday => 0
  | tuesday => 1
  | wednesday => 2
  | thursday => 3
  | friday => 4
  | saturday => 5
  | sunday => 6
  end.

Definition weekday_ne (a b : weekday) : bool :=
  negb (weekday_value a =? weekday_value b).

(** [do { cd += 1; } while (get_weekday(cd) != wd);], unrolled at most
    [fuel] times; [None] when the fuel does not suffice. *)
Fixpoint next_weekday (fuel : nat) (cd : civil_day) (wd : weekday)
    : option civil_day :=
  match fuel with
  | O => None
  | S fuel' =>
      let cd := plus_assign cd 1 in
      if weekday_ne (get_weekday cd) wd then next_weekday fuel' cd wd
      else Some cd
  end.

(** [do { cd -= 1; } while (get_weekday(cd) != wd);]. *)
Fixpoint prev_weekday (fuel : nat) (cd : civil_day) (wd : weekday)
    : option civil_day :=
  match fuel with
  | O => None
  | S fuel' =>
      let cd := minus_assign cd 1 in
      if weekday_ne (get_weekday cd) wd then prev_weekday fuel' cd wd
      else Some cd
  end.

(** ** Further specification-level definitions *)

(** [g 0 + g 1 + ... + g (n - 1)]. *)
Fixpoint sum_over (n : nat) (g : Z -> Z) : Z :=
  match n with
  | O => 0
  | S n' => sum_over n' g + g (Z.of_nat n')
  end.

(** The position of a weekday in [k_weekday_by_thu_off]. *)
Definition thu_offset (wd : weekday) : Z :=
  match wd with
  | thursday => 0
  | friday => 1
  | saturday => 2
  | sunday => 3
  | monday => 4
  | tuesday => 5
  | wednesday => 6
  end.

(** The weekday that follows a weekday. *)
Definition next_day (wd : weekday) : weekday :=
  match wd with
  | monday => tuesday
  | tuesday => wednesday
  | wednesday => thursday
  | thursday => friday
  | friday => saturday
  | saturday => sunday
  | sunday => monday
  end.

(** * Proofs *)

Ltac int_unfold :=
  unfold Int.add, Int.sub, Int.mul, Int.div, Int.rem, Int.neg, wrap,
    in_int, int_min, int_max in *.

Ltac int_arith := int_unfold; Z.to_euclidean_division_equations; lia.

Ltac case_bools :=
  rewrite ?Z.gtb_ltb;
  repeat match goal with
    | |- context [2 <? ?a] => destruct (Z.ltb_spec 2 a)
    | |- context [?a <=? 2] => destruct (Z.leb_spec a 2)
    end;
  repeat match goal with
    | |- context [?a =? ?b] => destruct (Z.eqb_spec a b)
    | |- context [?a <? ?b] => destruct (Z.ltb_spec a b)
    | |- context [?a <=? ?b] => destruct (Z.leb_spec a b)
    end; simpl orb; simpl andb; simpl negb; cbv iota.

Lemma tag_eq_dec (T U : tag) : {T = U} + {T <> U}.
Proof. decide equality. Defined.

(** ** Machine arithmetic and the period tables *)

Lemma wrap_id z : in_int z -> wrap z = z.
Proof.
  unfold in_int, int_min, int_max, wrap. intros H.
  rewrite Z.mod_small; lia.
Qed.

Lemma wrap_in_int z : in_int (wrap z).
Proof.
  unfold in_int, int_min, int_max, wrap.
  pose proof (Z.mod_pos_bound (z + 2147483648) 4294967296). lia.
Qed.

Lemma forall_below (P : Z -> bool) (n : nat) :
  forallb P (map Z.of_nat (seq 0 n)) = true ->
  forall i, 0 <= i < Z.of_nat n -> P i = true.
Proof.
  intros H i Hi. rewrite forallb_forall in H. apply H.
  rewrite <- (Z2Nat.id i) by lia. apply in_map, in_seq. lia.
Qed.

Lemma k_days_per_century_spec i :
  0 <= i < 400 ->
  subscript k_days_per_century i = if (i =? 0) || (300 <? i) then 1 else 0.
Proof.
  intros Hi.
  apply Z.eqb_eq.
  apply (forall_below
           (fun i => subscript k_days_per_century i
                     =? (if (i =? 0) || (300 <? i) then 1 else 0)) 400).
  - vm_compute. reflexivity.
  - exact Hi.
Qed.

Lemma k_days_per_4years_spec i :
  0 <= i < 400 ->
  subscript k_days_per_4years i =
    if (96 <? i mod 100) && negb (396 <? i) then 0
    else if (i =? 100) || (i =? 200) || (i =? 300) then 0 else 1.
Proof.
  intros Hi.
  apply Z.eqb_eq.
  apply (forall_below
           (fun i => subscript k_days_per_4years i
                     =? (if (96 <? i mod 100) && negb (396 <? i) then 0
                         else if (i =? 100) || (i =? 200) || (i =? 300)
                              then 0 else 1)) 400).
  - vm_compute. reflexivity.
  - exact Hi.
Qed.

Lemma k_dpm_spec i :
  0 <= i < 12 ->
  subscript k_dpm i =
    if i =? 1 then 28
    else if (i =? 3) || (i =? 5) || (i =? 8) || (i =? 10) then 30 else 31.
Proof.
  intros Hi.
  apply Z.eqb_eq.
  apply (forall_below
           (fun i => subscript k_dpm i
                     =? (if i =? 1 then 28
                         else if (i =? 3) || (i =? 5) || (i =? 8) || (i =? 10)
                              then 30 else 31)) 12).
  - vm_compute. reflexivity.
  - exact Hi.
Qed.

Lemma rem_eqb_mod (Y k : Z) :
  k = 4 \/ k = 100 \/ k = 400 -> (Y %i k =? 0) = (Y mod k =? 0).
Proof.
  unfold Int.rem.
  intros [-> | [-> | ->]];
    match goal with
    | |- (?a =? 0) = (?b =? 0) =>
        destruct (Z.eqb_spec a 0); destruct (Z.eqb_spec b 0)
    end; try reflexivity; exfalso;
    Z.to_euclidean_division_equations; lia.
Qed.

Lemma is_leap_year_spec Y : is_leap_year Y = leap_year Y.
Proof.
  unfold is_leap_year, leap_year.
  rewrite !rem_eqb_mod by tauto. reflexivity.
Qed.

Lemma year_index_spec Y M :
  year_index Y M = wrap (Y + Int.of_bool (M >? 2)) mod 400.
Proof.
  unfold year_index.
  pose proof (wrap_in_int (Y + Int.of_bool (M >? 2))) as H.
  unfold Int.add at 2. set (w := wrap (Y + Int.of_bool (M >? 2))) in *.
  clearbody w. int_arith.
Qed.

Lemma year_index_range Y M : 0 <= year_index Y M < 400.
Proof. rewrite year_index_spec. apply Z.mod_pos_bound. lia. Qed.

Lemma days_per_century_range Y M : 36524 <= days_per_century Y M <= 36525.
Proof.
  unfold days_per_century.
  rewrite k_days_per_century_spec by apply year_index_range.
  destruct ((year_index Y M =? 0) || (300 <? year_index Y M)); int_arith.
Qed.

Lemma days_per_4years_range Y M : 1460 <= days_per_4years Y M <= 1461.
Proof.
  unfold days_per_4years.
  rewrite k_days_per_4years_spec by apply year_index_range.
  repeat match goal with |- context [if ?b then _ else _] => destruct b end;
    int_arith.
Qed.

Lemma days_per_year_range Y M : 365 <= days_per_year Y M <= 366.
Proof. unfold days_per_year. destruct (is_leap_year _); lia. Qed.

Lemma days_per_month_spec Y M :
  1 <= M <= 12 ->
  days_per_month Y M =
    if M =? 2 then (if leap_year Y then 29 else 28)
    else if (M =? 4) || (M =? 6) || (M =? 9) || (M =? 11) then 30 else 31.
Proof.
  intros HM. unfold days_per_month.
  rewrite is_leap_year_spec.
  replace (M -i 1) with (M - 1) by int_arith.
  rewrite k_dpm_spec by lia.
  assert (C : M = 1 \/ M = 2 \/ M = 3 \/ M = 4 \/ M = 5 \/ M = 6 \/ M = 7 \/
              M = 8 \/ M = 9 \/ M = 10 \/ M = 11 \/ M = 12) by lia.
  repeat (destruct C as [-> | C]); try subst M; simpl;
    try reflexivity; destruct (leap_year Y); reflexivity.
Qed.

Lemma days_per_month_range Y M :
  1 <= M <= 12 -> 28 <= days_per_month Y M <= 31.
Proof.
  intros HM. rewrite days_per_month_spec by assumption.
  repeat match goal with |- context [if ?b then _ else _] => destruct b end;
    lia.
Qed.

(** ** The reference day ordinal *)

Lemma day_ordinal_day Y M D k :
  day_ordinal Y M (D + k) = day_ordinal Y M D + k.
Proof. unfold day_ordinal. lia. Qed.

Lemma day_ordinal_era Y M D k :
  day_ordinal (Y + 400 * k) M D = day_ordinal Y M D + 146097 * k.
Proof.
  unfold day_ordinal. destruct (M <=? 2);
    Z.to_euclidean_division_equations; lia.
Qed.

Lemma days_per_century_ordinal Y M D :
  in_int (Y + 1) -> in_int Y ->
  day_ordinal (Y + 100) M D = day_ordinal Y M D + days_per_century Y M.
Proof.
  intros H1 H0. unfold days_per_century.
  rewrite k_days_per_century_spec by apply year_index_range.
  rewrite year_index_spec.
  rewrite wrap_id
    by (unfold Int.of_bool; destruct (M >? 2);
        assumption || (rewrite Z.add_0_r; assumption)).
  unfold day_ordinal, Int.of_bool.
  case_bools; try lia; int_arith.
Qed.

Lemma days_per_4years_ordinal Y M D :
  in_int (Y + 1) -> in_int Y ->
  day_ordinal (Y + 4) M D = day_ordinal Y M D + days_per_4years Y M.
Proof.
  intros H1 H0. unfold days_per_4years.
  rewrite k_days_per_4years_spec by apply year_index_range.
  rewrite year_index_spec.
  rewrite wrap_id
    by (unfold Int.of_bool; destruct (M >? 2);
        assumption || (rewrite Z.add_0_r; assumption)).
  unfold day_ordinal, Int.of_bool.
  case_bools; try lia; int_arith.
Qed.

Lemma days_per_year_ordinal Y M D :
  in_int (Y + 1) -> in_int Y ->
  day_ordinal (Y + 1) M D = day_ordinal Y M D + days_per_year Y M.
Proof.
  intros H1 H0. unfold days_per_year.
  rewrite is_leap_year_spec.
  replace (Y +i Int.of_bool (M >? 2)) with (Y + Int.of_bool (M >? 2))
    by (unfold Int.of_bool; destruct (M >? 2); int_arith).
  unfold day_ordinal, leap_year, Int.of_bool.
  case_bools; try lia; int_arith.
Qed.

Lemma days_per_month_ordinal Y M D :
  1 <= M < 12 ->
  day_ordinal Y (M + 1) D = day_ordinal Y M D + days_per_month Y M.
Proof.
  intros HM. rewrite days_per_month_spec by lia.
  unfold day_ordinal, leap_year.
  rewrite ?Z.gtb_ltb.
  destruct (Z.ltb_spec 2 M); destruct (Z.leb_spec M 2); try lia;
    destruct (Z.ltb_spec 2 (M + 1)); destruct (Z.leb_spec (M + 1) 2);
    try lia.
  - assert (C : M = 3 \/ M = 4 \/ M = 5 \/ M = 6 \/ M = 7 \/
                M = 8 \/ M = 9 \/ M = 10 \/ M = 11) by lia.
    repeat (destruct C as [C | C]); subst M; simpl Z.eqb; cbv iota;
      simpl orb; cbv iota; Z.to_euclidean_division_equations; lia.
  - assert (M = 2) as -> by lia. simpl Z.eqb. cbv iota.
    replace (Y - 1) with (Y + -1) by lia.
    case_bools; Z.to_euclidean_division_equations; lia.
  - assert (M = 1) as -> by lia. simpl Z.eqb. cbv iota. simpl orb. cbv iota.
    Z.to_euclidean_division_equations; lia.
Qed.

Lemma december_ordinal Y D :
  day_ordinal (Y + 1) 1 D = day_ordinal Y 12 D + days_per_month Y 12.
Proof.
  rewrite days_per_month_spec by lia.
  unfold day_ordinal.
  change (1 <=? 2) with true. change (12 <=? 2) with false.
  change (1 >? 2) with false. change (12 >? 2) with true.
  change (12 =? 2) with false. cbv iota.
  replace (Y + 1 - 1) with Y by lia.
  simpl orb. cbv iota.
  Z.to_euclidean_division_equations; lia.
Qed.

Lemma day_ordinal_split Y M D :
  day_ordinal Y M D =
    days_before_year (shifted_year Y M) + day_of_year M D - 719468.
Proof.
  unfold day_ordinal, days_before_year, shifted_year, day_of_year,
    shifted_month.
  destruct (M <=? 2); destruct (M >? 2);
    Z.to_euclidean_division_equations; lia.
Qed.

Lemma days_before_year_succ cy :
  days_before_year (cy + 1) =
    days_before_year cy + 365 + (if leap_year (cy + 1) then 1 else 0).
Proof.
  unfold days_before_year, leap_year.
  case_bools; Z.to_euclidean_division_equations; lia.
Qed.

Lemma days_before_year_mono a b :
  a <= b -> days_before_year a <= days_before_year b.
Proof.
  unfold days_before_year. intros H.
  Z.to_euclidean_division_equations; lia.
Qed.

Lemma valid_day_of_year Y M D :
  valid_date Y M D ->
  0 <= shifted_month M <= 11 /\
  (5 * day_of_year M D + 2) / 153 = shifted_month M /\
  0 <= day_of_year M D <=
    364 + (if leap_year (shifted_year Y M + 1) then 1 else 0).
Proof.
  intros [HM HD]. rewrite days_per_month_spec in HD by assumption.
  unfold day_of_year, shifted_month, shifted_year.
  assert (C : M = 1 \/ M = 2 \/ M = 3 \/ M = 4 \/ M = 5 \/ M = 6 \/ M = 7 \/
              M = 8 \/ M = 9 \/ M = 10 \/ M = 11 \/ M = 12) by lia.
  repeat (destruct C as [C | C]); subst M;
    cbv [Z.eqb Z.leb Z.gtb Z.compare Pos.compare Pos.compare_cont Pos.eqb orb]
      in HD |- *;
    try replace (Y - 1 + 1) with Y by lia;
    destruct (leap_year _);
    Z.to_euclidean_division_equations; lia.
Qed.

Lemma day_ordinal_inj Y1 M1 D1 Y2 M2 D2 :
  valid_date Y1 M1 D1 -> valid_date Y2 M2 D2 ->
  day_ordinal Y1 M1 D1 = day_ordinal Y2 M2 D2 ->
  Y1 = Y2 /\ M1 = M2 /\ D1 = D2.
Proof.
  intros V1 V2 E.
  pose proof (valid_day_of_year _ _ _ V1) as (R1 & I1 & B1).
  pose proof (valid_day_of_year _ _ _ V2) as (R2 & I2 & B2).
  rewrite !day_ordinal_split in E.
  set (c1 := shifted_year Y1 M1) in *. set (c2 := shifted_year Y2 M2) in *.
  assert (Hc : c1 = c2).
  { pose proof (days_before_year_succ c1) as S1.
    pose proof (days_before_year_succ c2) as S2.
    destruct (Z.lt_trichotomy c1 c2) as [L | [L | L]];
      [exfalso | exact L | exfalso].
    - pose proof (days_before_year_mono (c1 + 1) c2 ltac:(lia)).
      destruct (leap_year (c1 + 1)); lia.
    - pose proof (days_before_year_mono (c2 + 1) c1 ltac:(lia)).
      destruct (leap_year (c2 + 1)); lia. }
  rewrite Hc in E.
  assert (Hd : day_of_year M1 D1 = day_of_year M2 D2) by lia.
  assert (Hm : shifted_month M1 = shifted_month M2)
    by (rewrite <- I1, <- I2, Hd; reflexivity).
  destruct V1 as [V1 _]. destruct V2 as [V2 _].
  unfold day_of_year in Hd. rewrite Hm in Hd.
  subst c1 c2. unfold shifted_year, shifted_month in *.
  rewrite ?Z.gtb_ltb in *.
  destruct (Z.leb_spec M1 2); destruct (Z.leb_spec M2 2);
    destruct (Z.ltb_spec 2 M1); destruct (Z.ltb_spec 2 M2); lia.
Qed.

Lemma day_ordinal_bounds Y M D :
  1 <= M <= 12 -> 1 <= D <= 31 ->
  (0 <= Y -> 365 * Y - 720200 <= day_ordinal Y M D <= 366 * Y - 719000) /\
  (Y < 0 -> 366 * Y - 720200 <= day_ordinal Y M D <= 365 * Y - 719000).
Proof.
  intros HM HD. unfold day_ordinal.
  destruct (Z.leb_spec M 2); rewrite Z.gtb_ltb; destruct (Z.ltb_spec 2 M);
    try lia; split; intros HY; Z.to_euclidean_division_equations; lia.
Qed.

(** ** The loops of [n_day] *)

Lemma while_loop_exit (P : locals -> Prop) (body : locals -> locals) :
  (forall s, P s -> 0 < l_n s) ->
  (forall s, P s -> l_n s < l_d s -> P (body s) /\ l_d (body s) < l_d s) ->
  forall fuel s, P s -> l_d s <= Z.of_nat fuel ->
    let s' := while_loop fuel (fun s => l_d s >? l_n s) body s in
    P s' /\ l_d s' <= l_n s'.
Proof.
  intros Hn Hb. induction fuel as [| fuel IH]; intros s Ps Hf; cbn [while_loop].
  - split; [assumption |]. specialize (Hn s Ps). lia.
  - rewrite Z.gtb_ltb. destruct (Z.ltb_spec (l_n s) (l_d s)) as [L | L].
    + destruct (Hb s Ps L) as [Pb Lb]. apply IH; [assumption | lia].
    + split; assumption.
Qed.

Lemma while_days_exit (P : locals -> Prop) (body : locals -> locals) :
  (forall s, P s -> 0 < l_n s) ->
  (forall s, P s -> l_n s < l_d s -> P (body s) /\ l_d (body s) < l_d s) ->
  forall s, P s ->
    P (while_days body s) /\ l_d (while_days body s) <= l_n (while_days body s).
Proof.
  intros Hn Hb s Ps. unfold while_days.
  apply (while_loop_exit P body Hn Hb); [assumption |].
  destruct (Z.le_gt_cases 0 (l_d s)); [rewrite Z2Nat.id |]; lia.
Qed.

Section DayLoops.
Variable G : Prop.
Variables K y0 m0 d0 : Z.
Hypothesis HG : G -> y0 <= 2147480000 /\ d0 <= 292193 /\ 1 <= m0 <= 12.

Section Jump.
Variable k : Z.
Variable f : Z -> Z -> Z.
Hypothesis Hk : 1 <= k <= 100.
Hypothesis f_range : forall Y M, 336 * k <= f Y M <= 36525.
Hypothesis f_ordinal : forall Y M D,
  in_int Y -> Y + k <= int_max ->
  day_ordinal (Y + k) M D = day_ordinal Y M D + f Y M.

Lemma jump_body_inv s :
  loop_inv G K y0 m0 d0 f s -> l_n s < l_d s ->
  loop_inv G K y0 m0 d0 f (jump_body k f s) /\
  l_d (jump_body k f s) < l_d s.
Proof.
  intros [(Iy & Im & Id & Ig) En] L.
  pose proof (f_range (l_y s) (l_m s)) as R.
  unfold jump_body; cbn [l_y l_m l_d l_n].
  assert (Ed : l_d s -i l_n s = l_d s - l_n s) by int_arith.
  rewrite Ed.
  split; [| lia].
  split; [| reflexivity].
  unfold day_inv; cbn [l_y l_m l_d l_n].
  split; [apply wrap_in_int |].
  split; [assumption |].
  split; [lia |].
  intros g. destruct (Ig g) as (Ly & Lb & Lk).
  destruct (HG g) as (By & Bd & Bm).
  assert (Ey : l_y s +i k = l_y s + k) by int_arith.
  rewrite Ey.
  split; [lia |]. split; [lia |].
  replace (l_d s - l_n s) with (l_d s + - l_n s) by lia.
  rewrite day_ordinal_day, f_ordinal, <- En by (unfold int_max; int_arith).
  lia.
Qed.

Lemma jump_loop_exit s :
  day_inv G K y0 m0 d0 s ->
  let s' := while_days (jump_body k f)
              (Locals (l_y s) (l_m s) (l_d s) (f (l_y s) (l_m s))) in
  day_inv G K y0 m0 d0 s' /\ l_d s' <= f (l_y s') (l_m s').
Proof.
  intros I.
  destruct (while_days_exit (loop_inv G K y0 m0 d0 f) (jump_body k f)) with
    (s := Locals (l_y s) (l_m s) (l_d s) (f (l_y s) (l_m s)))
    as [[I' En] L].
  - intros t [_ Et]. rewrite Et.
    pose proof (f_range (l_y t) (l_m t)). lia.
  - apply jump_body_inv.
  - split; [exact I | reflexivity].
  - cbv zeta. rewrite <- En. split; assumption.
Qed.

End Jump.

Lemma month_body_inv s :
  loop_inv G K y0 m0 d0 days_per_month s -> l_n s < l_d s ->
  loop_inv G K y0 m0 d0 days_per_month (month_body s) /\
  l_d (month_body s) < l_d s.
Proof.
  intros [(Iy & Im & Id & Ig) En] L.
  pose proof (days_per_month_range (l_y s) (l_m s) Im) as R.
  assert (Ed : l_d s -i l_n s = l_d s - l_n s) by int_arith.
  unfold month_body. rewrite Ed.
  destruct (Z.eqb_spec (l_m s) 12) as [E12 | N12]; cbn [l_y l_m l_d l_n].
  - split; [| lia]. split; [| reflexivity].
    unfold day_inv; cbn [l_y l_m l_d l_n].
    split; [apply wrap_in_int |]. split; [lia |]. split; [lia |].
    intros g. destruct (Ig g) as (Ly & Lb & Lk).
    destruct (HG g) as (By & Bd & Bm).
    assert (Ey : l_y s +i 1 = l_y s + 1) by int_arith.
    rewrite Ey. split; [lia |]. split; [lia |].
    replace (l_d s - l_n s) with (l_d s + - l_n s) by lia.
    rewrite day_ordinal_day, december_ordinal, <- E12, <- En. lia.
  - assert (Em : l_m s +i 1 = l_m s + 1) by int_arith.
    rewrite Em.
    split; [| lia]. split; [| reflexivity].
    unfold day_inv; cbn [l_y l_m l_d l_n].
    split; [assumption |]. split; [lia |]. split; [lia |].
    intros g. destruct (Ig g) as (Ly & Lb & Lk).
    split; [lia |]. split; [lia |].
    replace (l_d s - l_n s) with (l_d s + - l_n s) by lia.
    rewrite day_ordinal_day, days_per_month_ordinal, <- En by lia. lia.
Qed.

Lemma month_loop_exit s :
  day_inv G K y0 m0 d0 s ->
  let s' := while_days month_body
              (Locals (l_y s) (l_m s) (l_d s)
                      (days_per_month (l_y s) (l_m s))) in
  day_inv G K y0 m0 d0 s' /\ l_d s' <= days_per_month (l_y s') (l_m s').
Proof.
  intros I.
  destruct (while_days_exit (loop_inv G K y0 m0 d0 days_per_month)
              month_body) with
    (s := Locals (l_y s) (l_m s) (l_d s) (days_per_month (l_y s) (l_m s)))
    as [[I' En] L].
  - intros t [(_ & Im & _) Et]. rewrite Et.
    pose proof (days_per_month_range (l_y t) (l_m t) Im). lia.
  - apply month_body_inv.
  - split; [exact I | reflexivity].
  - cbv zeta. rewrite <- En. split; assumption.
Qed.

End DayLoops.

Lemma n_day_unfold y m d c hh mm ss :
  n_day y m d c hh mm ss =
    let s := n_day_loops (fst (n_day_head y d c)) m (snd (n_day_head y d c)) in
    Fields (l_y s) (l_m s) (l_d s) hh mm ss.
Proof.
  unfold n_day, n_day_head.
  set (y1 := y +i (c /i 146097) *i 400).
  set (c1 := c %i 146097).
  destruct (c1 <? 0); cbv beta iota zeta.
  - set (y2 := y1 -i 400 +i d /i 146097 *i 400).
    set (d2 := d %i 146097 +i (c1 +i 146097)).
    destruct (d2 <=? 0); cbn [fst snd]; reflexivity.
  - set (y2 := y1 +i d /i 146097 *i 400).
    set (d2 := d %i 146097 +i c1).
    destruct (d2 <=? 0); cbn [fst snd]; reflexivity.
Qed.

Lemma n_day_loops_spec Y M D :
  in_int Y -> 1 <= M <= 12 -> 1 <= D <= 292193 ->
  let s := n_day_loops Y M D in
  in_int (l_y s) /\ valid_date (l_y s) (l_m s) (l_d s) /\
  (Y <= 2147480000 ->
   Y <= l_y s <= Y + 871 /\
   day_ordinal (l_y s) (l_m s) (l_d s) = day_ordinal Y M D).
Proof.
  intros HY HM HD.
  set (G := Y <= 2147480000).
  set (K := day_ordinal Y M D).
  assert (HG : G -> Y <= 2147480000 /\ D <= 292193 /\ 1 <= M <= 12)
    by (unfold G; lia).
  assert (I0 : day_inv G K Y M D (Locals Y M D 0)).
  { unfold day_inv; cbn [l_y l_m l_d].
    split; [assumption |]. split; [assumption |]. split; [assumption |].
    intros _. split; [lia |]. split; [lia | reflexivity]. }
  pose proof (jump_loop_exit G K Y M D HG 100 days_per_century
                ltac:(lia)
                ltac:(intros; pose proof (days_per_century_range Y0 M0); lia)
                ltac:(intros; apply days_per_century_ordinal;
                      unfold in_int, int_min, int_max in *; lia)
                _ I0) as [I1 _].
  cbn [l_y l_m l_d] in I1.
  change (jump_body 100 days_per_century) with century_body in I1.
  set (s1 := while_days century_body _) in I1.
  pose proof (jump_loop_exit G K Y M D HG 4 days_per_4years
                ltac:(lia)
                ltac:(intros; pose proof (days_per_4years_range Y0 M0); lia)
                ltac:(intros; apply days_per_4years_ordinal;
                      unfold in_int, int_min, int_max in *; lia)
                _ I1) as [I2 _].
  change (jump_body 4 days_per_4years) with four_years_body in I2.
  set (s2 := while_days four_years_body _) in I2.
  pose proof (jump_loop_exit G K Y M D HG 1 days_per_year
                ltac:(lia)
                ltac:(intros; pose proof (days_per_year_range Y0 M0); lia)
                ltac:(intros; apply days_per_year_ordinal;
                      unfold in_int, int_min, int_max in *; lia)
                _ I2) as [I3 _].
  change (jump_body 1 days_per_year) with year_body in I3.
  set (s3 := while_days year_body _) in I3.
  pose proof (month_loop_exit G K Y M D HG _ I3) as [I4 L4].
  set (s4 := while_days month_body _) in I4, L4.
  change (n_day_loops Y M D) with s4. cbv zeta.
  destruct I4 as (Iy & Im & Id & Ig).
  split; [assumption |].
  split; [unfold valid_date; lia |].
  intros g. destruct (Ig g) as (Ly & Lb & Lk).
  split; [lia | exact Lk].
Qed.

Lemma n_day_head_spec Y D C :
  let Y1 := fst (n_day_head Y D C) in
  let D1 := snd (n_day_head Y D C) in
  in_int Y1 /\ 1 <= D1 <= 292193 /\
  (-2100000000 <= Y <= 2100000000 -> in_int D -> in_int C ->
   Y - 12000000 <= Y1 <= Y + 12000000 /\
   exists k, Y1 = Y + 400 * k /\ D1 + 146097 * k = D + C).
Proof.
  unfold n_day_head.
  destruct (Z.ltb_spec (C %i 146097) 0) as [Lc | Lc];
    match goal with
    | |- context [?a <=? 0] => destruct (Z.leb_spec a 0) as [Ld | Ld]
    end; cbn [fst snd];
    (split; [apply wrap_in_int |]);
    (split; [int_arith |]);
    intros HY HD HC;
    (split; [int_arith |]).
  - exists (Z.quot C 146097 - 1 + Z.quot D 146097 - 1). int_arith.
  - exists (Z.quot C 146097 - 1 + Z.quot D 146097). int_arith.
  - exists (Z.quot C 146097 + Z.quot D 146097 - 1). int_arith.
  - exists (Z.quot C 146097 + Z.quot D 146097). int_arith.
Qed.

Lemma n_day_spec Y M D C h mi s :
  1 <= M <= 12 ->
  let r := n_day Y M D C h mi s in
  in_int (y r) /\ valid_date (y r) (m r) (d r) /\
  hh r = h /\ mm r = mi /\ ss r = s /\
  (-2100000000 <= Y <= 2100000000 -> in_int D -> in_int C ->
   Y - 12001000 <= y r <= Y + 12001000 /\
   day_ordinal (y r) (m r) (d r) = day_ordinal Y M D + C).
Proof.
  intros HM. rewrite n_day_unfold.
  pose proof (n_day_head_spec Y D C) as (H1 & H2 & H3). cbv zeta in H1, H2, H3.
  set (Y1 := fst (n_day_head Y D C)) in *.
  set (D1 := snd (n_day_head Y D C)) in *.
  pose proof (n_day_loops_spec Y1 M D1 H1 HM H2) as (L1 & L2 & L3).
  cbv zeta in L1, L2, L3 |- *. cbn [y m d hh mm ss].
  repeat (split; [assumption || reflexivity |]).
  intros HY HD HC. destruct (H3 HY HD HC) as (B & k & Ek & Ed).
  destruct (L3 ltac:(lia)) as (B2 & E2).
  split; [lia |].
  rewrite E2, Ek, day_ordinal_era.
  replace D1 with (D + (C - 146097 * k)) by lia.
  rewrite day_ordinal_day. lia.
Qed.

(** ** The carry stages above [n_day] *)

Lemma n_mon_spec Y M D C h mi s :
  let r := n_mon Y M D C h mi s in
  in_int (y r) /\ valid_date (y r) (m r) (d r) /\
  hh r = h /\ mm r = mi /\ ss r = s /\
  (year_ok Y -> in_int M -> in_int D -> in_int C ->
   Y - 192000000 <= y r <= Y + 192000000 /\
   day_ordinal (y r) (m r) (d r) = raw_ordinal Y M D + C).
Proof.
  unfold n_mon, raw_ordinal, norm_year, norm_month, year_ok.
  destruct (Z.leb_spec (M %i 12) 0) as [L | L]; cbv zeta;
    match goal with
    | |- context [n_day ?a ?b _ _ _ _ _] =>
        assert (Hb : 1 <= b <= 12) by int_arith;
        pose proof (n_day_spec a b D C h mi s Hb)
          as (N1 & N2 & N3 & N4 & N5 & N6);
        cbv zeta in N1, N2, N3, N4, N5, N6;
        assert (Ea : year_ok Y -> in_int M -> a = Y + (M - 1) / 12)
          by (unfold year_ok; intros; int_arith);
        assert (Eb : b = (M - 1) mod 12 + 1) by int_arith
    end;
    (repeat (split; [assumption |]));
    intros HY HM HD HC; specialize (Ea HY HM);
    assert (Q : -179000000 <= (M - 1) / 12 <= 179000000) by int_arith;
    (destruct N6 as [B E]; [lia | assumption | assumption |]);
    rewrite <- Ea, <- Eb; (split; [lia | exact E]).
Qed.

Lemma n_hour_spec Y M D C H mi s :
  let r := n_hour Y M D C H mi s in
  in_int (y r) /\ valid_date (y r) (m r) (d r) /\
  hh r = H mod 24 /\ mm r = mi /\ ss r = s /\
  (year_ok Y -> in_int M -> in_int D -> carry_ok C -> in_int H ->
   Y - 192000000 <= y r <= Y + 192000000 /\
   day_ordinal (y r) (m r) (d r) = raw_ordinal Y M D + (C + H / 24)).
Proof.
  unfold n_hour, carry_ok.
  destruct (Z.ltb_spec (H %i 24) 0) as [L | L]; cbv zeta;
    match goal with
    | |- context [n_mon _ _ _ ?c ?h _ _] =>
        pose proof (n_mon_spec Y M D c h mi s) as (N1 & N2 & N3 & N4 & N5 & N6);
        cbv zeta in N1, N2, N3, N4, N5, N6;
        assert (Eh : h = H mod 24) by int_arith;
        assert (Ec : -2000000000 <= C <= 2000000000 -> in_int H ->
                     c = C + H / 24) by (intros; int_arith)
    end;
    (split; [assumption |]); (split; [assumption |]);
    (split; [congruence |]); (split; [assumption |]); (split; [assumption |]);
    intros HY HM HD HC HH; specialize (Ec HC HH);
    assert (Q : -90000000 <= H / 24 <= 90000000) by int_arith;
    rewrite <- Ec; apply N6; try assumption; rewrite Ec; int_arith.
Qed.

Lemma n_min_spec Y M D H C Mi s :
  let r := n_min Y M D H C Mi s in
  in_int (y r) /\ valid_date (y r) (m r) (d r) /\
  0 <= hh r < 24 /\ mm r = Mi mod 60 /\ ss r = s /\
  (year_ok Y -> in_int M -> in_int D -> in_int H -> carry_ok C ->
   in_int Mi ->
   Y - 192000000 <= y r <= Y + 192000000 /\
   hh r = (H + (C + Mi / 60)) mod 24 /\
   day_ordinal (y r) (m r) (d r) =
     raw_ordinal Y M D + (H + (C + Mi / 60)) / 24).
Proof.
  unfold n_min, carry_ok.
  destruct (Z.ltb_spec (Mi %i 60) 0) as [L | L]; cbv zeta;
    match goal with
    | |- context [n_hour _ _ _ ?c ?h ?mi' _] =>
        pose proof (n_hour_spec Y M D c h mi' s)
          as (N1 & N2 & N3 & N4 & N5 & N6);
        cbv zeta in N1, N2, N3, N4, N5, N6;
        assert (Em : mi' = Mi mod 60) by int_arith
    end;
    match goal with
    | |- context [n_hour _ _ _ (_ +i ?c1 /i 24) _ _ _] =>
        assert (Ec : -2000000000 <= C <= 2000000000 -> in_int Mi ->
                     c1 = C + Mi / 60) by (intros; int_arith);
        set (k := c1) in *
    end;
    (split; [assumption |]); (split; [assumption |]);
    (split; [rewrite N3; apply Z.mod_pos_bound; lia |]);
    (split; [congruence |]); (split; [assumption |]);
    intros HY HM HD HH HC HMi; specialize (Ec HC HMi);
    assert (Q : -36000000 <= Mi / 60 <= 36000000) by int_arith;
    assert (Ek : in_int k) by (unfold in_int, int_min, int_max; lia);
    assert (Eq : H /i 24 +i k /i 24 = Z.quot H 24 + Z.quot k 24)
      by int_arith;
    assert (Er : H %i 24 +i k %i 24 = Z.rem H 24 + Z.rem k 24)
      by int_arith;
    rewrite Eq, Er in N3, N6 |- *;
    (destruct N6 as (B & E);
     [assumption | assumption | assumption
      | unfold carry_ok; int_arith | int_arith |]);
    rewrite <- Ec;
    (split; [exact B |]);
    (split; [rewrite N3 | rewrite E; f_equal];
     Z.to_euclidean_division_equations; lia).
Qed.

Lemma n_sec_spec Y M D H Mi S :
  let r := n_sec Y M D H Mi S in
  in_int (y r) /\ valid_date (y r) (m r) (d r) /\
  0 <= hh r < 24 /\ 0 <= mm r < 60 /\ ss r = S mod 60 /\
  (year_ok Y -> in_int M -> in_int D -> in_int H -> in_int Mi -> in_int S ->
   Y - 192000000 <= y r <= Y + 192000000 /\
   mm r = (Mi + S / 60) mod 60 /\
   hh r = (H + (Mi + S / 60) / 60) mod 24 /\
   day_ordinal (y r) (m r) (d r) =
     raw_ordinal Y M D + (H + (Mi + S / 60) / 60) / 24).
Proof.
  unfold n_sec.
  destruct (Z.ltb_spec (S %i 60) 0) as [L | L]; cbv zeta;
    match goal with
    | |- context [n_min _ _ _ _ ?c ?mi' ?s'] =>
        pose proof (n_min_spec Y M D H c mi' s')
          as (N1 & N2 & N3 & N4 & N5 & N6);
        cbv zeta in N1, N2, N3, N4, N5, N6;
        assert (Es : s' = S mod 60) by int_arith
    end;
    match goal with
    | |- context [n_min _ _ _ _ (_ +i ?c1 /i 60) _ _] =>
        assert (Ec : in_int S -> c1 = S / 60) by (intros; int_arith);
        set (k := c1) in *
    end;
    (split; [assumption |]); (split; [assumption |]);
    (split; [assumption |]);
    (split; [rewrite N4; apply Z.mod_pos_bound; lia |]);
    (split; [congruence |]);
    intros HY HM HD HH HMi HS; specialize (Ec HS);
    assert (Q : -36000000 <= S / 60 <= 36000000) by int_arith;
    assert (Ek : in_int k) by (unfold in_int, int_min, int_max; lia);
    assert (Eq : Mi /i 60 +i k /i 60 = Z.quot Mi 60 + Z.quot k 60)
      by int_arith;
    assert (Er : Mi %i 60 +i k %i 60 = Z.rem Mi 60 + Z.rem k 60)
      by int_arith;
    rewrite Eq, Er in N4, N6 |- *;
    (destruct N6 as (B & E1 & E2);
     [assumption | assumption | assumption | assumption
      | unfold carry_ok; int_arith | int_arith |]);
    rewrite <- Ec;
    (split; [exact B |]);
    (split; [rewrite N4 | split; [rewrite E1 | rewrite E2; f_equal]];
     Z.to_euclidean_division_equations; lia).
Qed.

(** ** Canonical tuples and reachable values *)

Lemma wrap_add_l a b : wrap (wrap a + b) = wrap (a + b).
Proof. unfold wrap. Z.to_euclidean_division_equations; lia. Qed.

Lemma wrap_add_r a b : wrap (a + wrap b) = wrap (a + b).
Proof. rewrite (Z.add_comm a), wrap_add_l. f_equal. lia. Qed.

Lemma wrap_sub_l a b : wrap (wrap a - b) = wrap (a - b).
Proof. unfold Z.sub. apply wrap_add_l. Qed.

Lemma while_days_skip body s :
  l_d s <= l_n s -> while_days body s = s.
Proof.
  intros H. unfold while_days. destruct (Z.to_nat (l_d s)); cbn [while_loop].
  - reflexivity.
  - rewrite Z.gtb_ltb. destruct (Z.ltb_spec (l_n s) (l_d s)); [lia |].
    reflexivity.
Qed.

Lemma n_day_canonical Y M D h mi s :
  in_int Y -> valid_date Y M D ->
  n_day Y M D 0 h mi s = Fields Y M D h mi s.
Proof.
  intros HY [HM HD].
  pose proof (days_per_month_range Y M HM) as R.
  rewrite n_day_unfold.
  assert (E : n_day_head Y D 0 = (Y, D)).
  { unfold n_day_head.
    change (0 /i 146097) with 0. change (0 *i 400) with 0.
    change (0 %i 146097 <? 0) with false. cbv iota zeta.
    change (0 %i 146097) with 0.
    replace (D /i 146097) with 0 by int_arith.
    change (0 *i 400) with 0.
    replace (Y +i 0) with Y by int_arith.
    replace (Y +i 0) with Y by int_arith.
    replace (D %i 146097 +i 0) with D by int_arith.
    destruct (Z.leb_spec D 0); [lia | reflexivity]. }
  rewrite E. cbn [fst snd]. unfold n_day_loops.
  rewrite (while_days_skip century_body)
    by (cbn [l_d l_n]; pose proof (days_per_century_range Y M); lia).
  cbn [l_y l_m l_d l_n].
  rewrite (while_days_skip four_years_body)
    by (cbn [l_d l_n]; pose proof (days_per_4years_range Y M); lia).
  cbn [l_y l_m l_d l_n].
  rewrite (while_days_skip year_body)
    by (cbn [l_d l_n]; pose proof (days_per_year_range Y M); lia).
  cbn [l_y l_m l_d l_n].
  rewrite (while_days_skip month_body) by (cbn [l_d l_n]; lia).
  reflexivity.
Qed.

Lemma n_mon_norm Y M D C h mi s :
  in_int Y -> in_int M ->
  n_mon Y M D C h mi s =
    n_day (wrap (Y + (M - 1) / 12)) ((M - 1) mod 12 + 1) D C h mi s.
Proof.
  intros HY HM. unfold n_mon.
  destruct (Z.leb_spec (M %i 12) 0) as [L | L]; cbv zeta.
  - replace (M %i 12 +i 12) with ((M - 1) mod 12 + 1) by int_arith.
    unfold Int.sub, Int.add. rewrite wrap_sub_l.
    replace (Y + M /i 12 - 1) with (Y + (M - 1) / 12) by int_arith.
    reflexivity.
  - replace (M %i 12) with ((M - 1) mod 12 + 1) by int_arith.
    unfold Int.add.
    replace (Y + M /i 12) with (Y + (M - 1) / 12) by int_arith.
    reflexivity.
Qed.

Lemma n_sec_canonical f :
  in_int (y f) -> canonical f ->
  n_sec (y f) (m f) (d f) (hh f) (mm f) (ss f) = f.
Proof.
  destruct f as [Y M D H Mi S]. cbn [y m d hh mm ss]. unfold canonical.
  cbn [y m d hh mm ss]. intros HY (HM & HD & HH & HMi & HS).
  unfold n_sec.
  destruct (Z.ltb_spec (S %i 60) 0) as [L | L]; [int_arith |]. cbv zeta.
  replace (Mi /i 60 +i S /i 60 /i 60) with 0 by int_arith.
  replace (Mi %i 60 +i S /i 60 %i 60) with Mi by int_arith.
  replace (S %i 60) with S by int_arith.
  unfold n_min.
  destruct (Z.ltb_spec (Mi %i 60) 0) as [L' | L']; [int_arith |]. cbv zeta.
  replace (H /i 24 +i (0 +i Mi /i 60) /i 24) with 0 by int_arith.
  replace (H %i 24 +i (0 +i Mi /i 60) %i 24) with H by int_arith.
  replace (Mi %i 60) with Mi by int_arith.
  unfold n_hour.
  destruct (Z.ltb_spec (H %i 24) 0) as [L'' | L'']; [int_arith |]. cbv zeta.
  replace (0 +i H /i 24) with 0 by int_arith.
  replace (H %i 24) with H by int_arith.
  rewrite n_mon_norm by (assumption || int_arith).
  replace ((M - 1) / 12) with 0 by int_arith.
  replace ((M - 1) mod 12 + 1) with M by int_arith.
  replace (Y + 0) with Y by lia. rewrite wrap_id by assumption.
  apply n_day_canonical; [assumption | split; assumption].
Qed.

Lemma align_well_formed T f :
  in_int (y f) -> canonical f -> well_formed T (align T f).
Proof.
  intros HY (HM & HD & HH & HMi & HS).
  pose proof (days_per_month_range (y f) (m f) HM) as R.
  pose proof (days_per_month_range (y f) 1 ltac:(lia)) as R1.
  destruct T; unfold well_formed, canonical, aligned, align, in_int in *;
    cbn [y m d hh mm ss]; repeat split; try assumption; lia.
Qed.

Lemma align_id T f : aligned T f -> align T f = f.
Proof.
  destruct f as [Y M D H Mi S].
  destruct T; unfold aligned, align; cbn [y m d hh mm ss]; intros A;
    repeat match goal with H : _ /\ _ |- _ => destruct H end;
    subst; reflexivity.
Qed.

Lemma of_fields_well_formed T f :
  well_formed T f -> of_fields T f = CivilTime f.
Proof. intros (_ & _ & A). unfold of_fields. rewrite align_id; auto. Qed.

Lemma step_well_formed T f n :
  well_formed T f -> well_formed T (step T f n).
Proof.
  intros (HY & (HM & HD & HH & HMi & HS) & A).
  unfold well_formed, canonical.
  destruct T; unfold step, aligned in *.
  - pose proof (n_sec_spec (y f) (m f) (d f) (hh f) (mm f +i n /i 60)
                  (ss f +i n %i 60)) as (N1 & [N2 N2'] & N3 & N4 & N5 & _).
    cbv zeta in *. rewrite N5.
    pose proof (Z.mod_pos_bound (ss f +i n %i 60) 60). intuition lia.
  - pose proof (n_min_spec (y f) (m f) (d f) (hh f +i n /i 60) 0
                  (mm f +i n %i 60) (ss f))
      as (N1 & [N2 N2'] & N3 & N4 & N5 & _).
    cbv zeta in *. rewrite N4, N5.
    pose proof (Z.mod_pos_bound (mm f +i n %i 60) 60). intuition lia.
  - pose proof (n_hour_spec (y f) (m f) (d f +i n /i 24) 0
                  (hh f +i n %i 24) (mm f) (ss f))
      as (N1 & [N2 N2'] & N3 & N4 & N5 & _).
    cbv zeta in *. rewrite N3, N4, N5.
    pose proof (Z.mod_pos_bound (hh f +i n %i 24) 24). intuition lia.
  - pose proof (n_day_spec (y f) (m f) (d f) n (hh f) (mm f) (ss f) HM)
      as (N1 & [N2 N2'] & N3 & N4 & N5 & _).
    cbv zeta in *. rewrite N3, N4, N5. intuition lia.
  - destruct A as (Ad & Ah & Am & As).
    rewrite n_mon_norm by apply wrap_in_int.
    set (Y' := wrap _). set (M' := _ mod 12 + 1).
    assert (HM' : 1 <= M' <= 12)
      by (unfold M'; Z.to_euclidean_division_equations; lia).
    pose proof (days_per_month_range Y' M' HM') as R.
    rewrite Ad, n_day_canonical
      by (apply wrap_in_int || (split; [assumption | lia])).
    cbn [y m d hh mm ss].
    assert (IY : in_int Y') by apply wrap_in_int.
    intuition lia.
  - cbn [y m d hh mm ss]. destruct A as (Am & Ad & Ah & Ami & As).
    rewrite Am in *.
    pose proof (days_per_month_range (y f +i n) 1 ltac:(lia)) as R.
    pose proof (wrap_in_int (y f + n)). unfold Int.add at 1.
    intuition lia.
Qed.

Lemma make_well_formed T Y M D H Mi S :
  well_formed T (f_ (make T Y M D H Mi S)).
Proof.
  unfold make, of_fields. cbn [f_].
  pose proof (n_sec_spec Y M D H Mi S) as (N1 & [N2 N2'] & N3 & N4 & N5 & _).
  cbv zeta in *.
  apply align_well_formed; [assumption |].
  unfold canonical. rewrite N5.
  pose proof (Z.mod_pos_bound S 60). intuition lia.
Qed.

Lemma reachable_well_formed T (v : civil_time T) :
  reachable T v -> well_formed T (f_ v).
Proof.
  induction 1 as [T Y M D H Mi S | T U ct R IH | T a n R IH Hn
                 | T a n R IH Hn | T a n R IH Hn | T a n R IH Hn].
  - apply make_well_formed.
  - unfold convert, of_fields. cbn [f_].
    destruct IH as (HY & HC & _). apply align_well_formed; assumption.
  - unfold plus_assign. cbn [f_]. apply step_well_formed, IH.
  - unfold minus_assign.
    destruct (negb (n =? int_min)); cbn [f_];
      repeat apply step_well_formed; exact IH.
  - unfold plus, of_fields. cbn [f_].
    destruct (step_well_formed T (f_ a) n IH) as (HY & HC & _).
    apply align_well_formed; assumption.
  - unfold minus, of_fields. cbn [f_].
    destruct (step_well_formed T (f_ a) (Int.neg n) IH) as (HY & HC & _).
    apply align_well_formed; assumption.
Qed.

Lemma make_of_fields T (v : civil_time T) :
  well_formed T (f_ v) ->
  make T (year v) (month v) (day v) (hour v) (minute v) (second v) = v.
Proof.
  intros (HY & HC & A). destruct v as [f]. cbn [f_] in *.
  unfold make, year, month, day, hour, minute, second. cbn [f_].
  rewrite n_sec_canonical by assumption.
  unfold of_fields. rewrite align_id by assumption. reflexivity.
Qed.

(** C1: every value produced by a constructor, a conversion or a stepping
    operator holds a canonical tuple whose fields below the alignment are at
    their minimum, and constructing a value from the fields read back gives
    an equal value. *)
Theorem canonical_invariant T (v : civil_time T) :
  reachable T v ->
  in_int (year v) /\
  (1 <= month v <= 12 /\
   1 <= day v <= days_per_month (year v) (month v) /\
   0 <= hour v < 24 /\ 0 <= minute v < 60 /\ 0 <= second v < 60) /\
  aligned T (f_ v) /\
  make T (year v) (month v) (day v) (hour v) (minute v) (second v) = v.
Proof.
  intros R. pose proof (reachable_well_formed T v R) as W.
  destruct W as (HY & HC & A).
  split; [exact HY |]. split; [exact HC |]. split; [exact A |].
  apply make_of_fields. repeat split; assumption || apply HC || apply HY.
Qed.

Lemma canonical_invariant_witness :
  let v := minus (convert hour_tag (make second_tag 2015 13 32 25 61 (-1)))
                 int_min in
  make hour_tag (year v) (month v) (day v) (hour v) (minute v) (second v) = v.
Proof.
  intros v. apply canonical_invariant.
  apply reach_minus; [| unfold in_int, int_min, int_max; lia].
  apply reach_convert.
  apply reach_make; unfold in_int, int_min, int_max; lia.
Defined.

(** ** Stepping as addition on the time line *)

Lemma raw_ordinal_canonical Y M D :
  1 <= M <= 12 -> raw_ordinal Y M D = day_ordinal Y M D.
Proof.
  intros HM. unfold raw_ordinal, norm_year, norm_month.
  replace ((M - 1) / 12) with 0 by (Z.to_euclidean_division_equations; lia).
  replace ((M - 1) mod 12 + 1) with M
    by (Z.to_euclidean_division_equations; lia).
  f_equal. lia.
Qed.

Lemma units_inj T f1 f2 :
  canonical f1 -> canonical f2 -> aligned T f1 -> aligned T f2 ->
  units T f1 = units T f2 -> f1 = f2.
Proof.
  destruct f1 as [Y1 M1 D1 H1 Mi1 S1]. destruct f2 as [Y2 M2 D2 H2 Mi2 S2].
  unfold canonical, aligned, units. cbn [y m d hh mm ss].
  intros (HM1 & HD1 & HH1 & HMi1 & HS1) (HM2 & HD2 & HH2 & HMi2 & HS2) A1 A2 E.
  destruct T;
    try (assert (O : day_ordinal Y1 M1 D1 = day_ordinal Y2 M2 D2) by lia;
         apply day_ordinal_inj in O; [| split; assumption | split; assumption];
         destruct O as (-> & -> & ->));
    f_equal; lia.
Qed.

Lemma step_units T f n :
  T <> year_tag -> well_formed T f -> year_step_ok (y f) -> in_int n ->
  units T (step T f n) = units T f + n /\
  y f - 192000000 <= y (step T f n) <= y f + 192000000.
Proof.
  intros HT (HY & (HM & HD & HH & HMi & HS) & A) Y_ok Hn.
  pose proof (days_per_month_range (y f) (m f) HM) as R.
  assert (Y_ok' : year_ok (y f)) by (unfold year_ok, year_step_ok in *; lia).
  assert (I_m : in_int (m f)) by (unfold in_int, int_min, int_max; lia).
  assert (I_d : in_int (d f)) by (unfold in_int, int_min, int_max; lia).
  assert (I_h : in_int (hh f)) by (unfold in_int, int_min, int_max; lia).
  destruct T; unfold step, units; [| | | | | congruence].
  - assert (E1 : mm f +i n /i 60 = mm f + Z.quot n 60) by int_arith.
    assert (E2 : ss f +i n %i 60 = ss f + Z.rem n 60) by int_arith.
    rewrite E1, E2.
    pose proof (n_sec_spec (y f) (m f) (d f) (hh f) (mm f + Z.quot n 60)
                  (ss f + Z.rem n 60)) as (_ & _ & _ & _ & N5 & N6).
    cbv zeta in N5, N6.
    destruct N6 as (B & F1 & F2 & F3); try assumption; try int_arith.
    rewrite raw_ordinal_canonical in F3 by assumption.
    split; [| exact B]. rewrite N5, F1, F2, F3.
    Z.to_euclidean_division_equations; lia.
  - assert (E1 : hh f +i n /i 60 = hh f + Z.quot n 60) by int_arith.
    assert (E2 : mm f +i n %i 60 = mm f + Z.rem n 60) by int_arith.
    rewrite E1, E2.
    pose proof (n_min_spec (y f) (m f) (d f) (hh f + Z.quot n 60) 0
                  (mm f + Z.rem n 60) (ss f)) as (_ & _ & _ & N4 & N5 & N6).
    cbv zeta in N4, N5, N6.
    destruct N6 as (B & F2 & F3); try assumption;
      try (unfold carry_ok; int_arith).
    rewrite raw_ordinal_canonical in F3 by assumption.
    split; [| exact B]. rewrite N4, F2, F3.
    Z.to_euclidean_division_equations; lia.
  - assert (E1 : d f +i n /i 24 = d f + Z.quot n 24) by int_arith.
    assert (E2 : hh f +i n %i 24 = hh f + Z.rem n 24) by int_arith.
    rewrite E1, E2.
    pose proof (n_hour_spec (y f) (m f) (d f + Z.quot n 24) 0
                  (hh f + Z.rem n 24) (mm f) (ss f))
      as (_ & _ & N3 & _ & _ & N6).
    cbv zeta in N3, N6.
    destruct N6 as (B & F3); try assumption;
      try (unfold carry_ok; int_arith).
    rewrite raw_ordinal_canonical, day_ordinal_day in F3 by assumption.
    split; [| exact B]. rewrite N3, F3.
    Z.to_euclidean_division_equations; lia.
  - pose proof (n_day_spec (y f) (m f) (d f) n (hh f) (mm f) (ss f) HM)
      as (_ & _ & _ & _ & _ & N6).
    cbv zeta in N6.
    destruct N6 as (B & F3);
      [unfold year_ok in *; lia | assumption | assumption |].
    split; [exact F3 | lia].
  - destruct A as (Ad & _).
    rewrite n_mon_norm by apply wrap_in_int.
    assert (E1 : y f +i n /i 12 = y f + Z.quot n 12)
      by (unfold year_step_ok in *; int_arith).
    assert (E2 : m f +i n %i 12 = m f + Z.rem n 12) by int_arith.
    rewrite E1, E2.
    set (q := (m f + Z.rem n 12 - 1) / 12).
    assert (Q : -2 <= q <= 2)
      by (unfold q; Z.to_euclidean_division_equations; lia).
    assert (N : -179000000 <= Z.quot n 12 <= 179000000) by int_arith.
    rewrite wrap_id
      by (unfold year_step_ok, in_int, int_min, int_max in *; lia).
    set (M' := _ mod 12 + 1).
    assert (HM' : 1 <= M' <= 12)
      by (unfold M'; Z.to_euclidean_division_equations; lia).
    pose proof (days_per_month_range (y f + Z.quot n 12 + q) M' HM') as R'.
    rewrite Ad, n_day_canonical;
      [| unfold year_step_ok, in_int, int_min, int_max in *; lia
       | split; [assumption | lia]].
    cbn [y m d hh mm ss]. unfold M', q.
    split; Z.to_euclidean_division_equations; lia.
Qed.

Lemma step_year f n k :
  step year_tag (step year_tag f n) k = step year_tag f (n + k).
Proof.
  unfold step; cbn [y m d hh mm ss]. f_equal.
  unfold Int.add. rewrite wrap_add_l. f_equal. lia.
Qed.

Lemma step_year_zero f : in_int (y f) -> step year_tag f 0 = f.
Proof.
  destruct f as [Y M D H Mi S]. intros HY.
  unfold step; cbn [y m d hh mm ss] in *. f_equal.
  unfold Int.add. rewrite Z.add_0_r. apply wrap_id, HY.
Qed.

Lemma step_zero T f :
  well_formed T f -> year_step_ok (y f) -> step T f 0 = f.
Proof.
  intros W Ys.
  destruct (tag_eq_dec T year_tag) as [-> | NT];
    [apply step_year_zero, W |].
  destruct (step_units T f 0 NT W Ys) as (U & _);
    [unfold in_int, int_min, int_max; lia |].
  pose proof (step_well_formed T f 0 W) as (_ & C0 & A0).
  destruct W as (_ & C & A).
  apply (units_inj T); try assumption. lia.
Qed.

Lemma step_compose T f n k :
  well_formed T f -> -1500000000 <= y f <= 1500000000 ->
  in_int n -> in_int k -> in_int (n + k) ->
  step T (step T f n) k = step T f (n + k).
Proof.
  intros W Ys Hn Hk Hnk.
  destruct (tag_eq_dec T year_tag) as [-> | NT]; [apply step_year |].
  assert (Y1 : year_step_ok (y f)) by (unfold year_step_ok; lia).
  destruct (step_units T f n NT W Y1 Hn) as (U1 & B1).
  pose proof (step_well_formed T f n W) as W1.
  assert (Y2 : year_step_ok (y (step T f n))) by (unfold year_step_ok; lia).
  destruct (step_units T (step T f n) k NT W1 Y2 Hk) as (U2 & B2).
  destruct (step_units T f (n + k) NT W Y1 Hnk) as (U3 & B3).
  pose proof (step_well_formed T (step T f n) k W1) as (_ & C2 & A2).
  pose proof (step_well_formed T f (n + k) W) as (_ & C3 & A3).
  apply (units_inj T); try assumption. lia.
Qed.

Lemma step_year_bound T f n :
  T <> year_tag -> well_formed T f -> year_step_ok (y f) -> in_int n ->
  y f - 192000000 <= y (step T f n) <= y f + 192000000.
Proof. intros NT W Ys Hn. apply (step_units T f n NT W Ys Hn). Qed.

Lemma documented_range_safe Y : -5877641 <= Y <= 5881580 -> safe_year Y.
Proof. unfold safe_year. lia. Qed.

(** C6: within the supported range, stepping by [n] and then by [k] is
    stepping by [n + k], for the assigning and for the binary operator. *)
Theorem step_associative T (a : civil_time T) n k :
  reachable T a -> safe_year (year a) ->
  in_int n -> in_int k -> in_int (n + k) ->
  plus_assign (plus_assign a n) k = plus_assign a (n + k) /\
  plus (plus a n) k = plus a (n + k).
Proof.
  intros R Ys Hn Hk Hnk.
  pose proof (reachable_well_formed T a R) as W.
  assert (E : step T (step T (f_ a) n) k = step T (f_ a) (n + k))
    by (apply step_compose; try assumption;
        unfold safe_year, year in Ys; lia).
  split.
  - unfold plus_assign. cbn [f_]. rewrite E. reflexivity.
  - unfold plus.
    rewrite (of_fields_well_formed T (step T (f_ a) n))
      by (apply step_well_formed, W).
    cbn [f_]. rewrite E. reflexivity.
Qed.

Lemma step_associative_witness :
  plus_assign (plus_assign (make second_tag 1999 12 31 23 59 59) int_max)
              int_min
  = plus_assign (make second_tag 1999 12 31 23 59 59) (int_max + int_min).
Proof.
  refine (proj1 (step_associative second_tag
                   (make second_tag 1999 12 31 23 59 59) int_max int_min
                   _ _ _ _ _)).
  - apply reach_make; unfold in_int, int_min, int_max; lia.
  - vm_compute. split; discriminate.
  - unfold in_int, int_min, int_max. lia.
  - unfold in_int, int_min, int_max. lia.
  - unfold in_int, int_min, int_max. lia.
Defined.

(** C2, within the supported range: for a value whose year is in range,
    [-=] undoes [+=] for every [int], the minimum included. *)
Theorem step_inverse T (a : civil_time T) n :
  reachable T a -> safe_year (year a) -> in_int n ->
  minus_assign (plus_assign a n) n = a.
Proof.
  intros R Ys Hn.
  pose proof (reachable_well_formed T a R) as W.
  destruct a as [f]. unfold safe_year, year in Ys. cbn [f_] in *.
  assert (Yf : year_step_ok (y f)) by (unfold year_step_ok; lia).
  assert (I : forall z, int_min <= z <= int_max -> in_int z)
    by (intros z Hz; exact Hz).
  unfold minus_assign, plus_assign. cbn [f_].
  destruct (Z.eqb_spec n int_min) as [E | NE]; cbn [negb]; f_equal.
  - subst n. change (Int.neg (int_min +i 1)) with int_max.
    rewrite (step_compose T f int_min int_max)
      by (assumption || lia || (apply I; unfold int_min, int_max; lia)).
    change (int_min + int_max) with (-1).
    rewrite (step_compose T f (-1) 1)
      by (assumption || lia || (apply I; unfold int_min, int_max; lia)).
    apply step_zero; assumption.
  - assert (En : Int.neg n = - n) by int_arith.
    rewrite En, (step_compose T f n (- n))
      by (assumption || lia
          || (apply I; unfold in_int, int_min, int_max in *; lia)).
    rewrite Z.add_opp_diag_r. apply step_zero; assumption.
Qed.

Lemma step_inverse_witness :
  minus_assign (plus_assign (make day_tag 2000 2 29 0 0 0) int_min) int_min
  = make day_tag 2000 2 29 0 0 0.
Proof.
  apply (step_inverse day_tag (make day_tag 2000 2 29 0 0 0) int_min).
  - apply reach_make; unfold in_int, int_min, int_max; lia.
  - vm_compute. split; discriminate.
  - unfold in_int, int_min, int_max. lia.
Defined.

(** C2 does not extend to every value: next to the largest representable
    year the year wraps around and [-=] no longer undoes [+=]. *)
Lemma step_inverse_counterexample :
  ~ (forall T (a : civil_time T) n,
        reachable T a -> in_int n ->
        minus_assign (plus_assign a n) n = a).
Proof.
  intros H.
  specialize (H day_tag (make day_tag 2147483610 1 1 0 0 0) 36523).
  assert (E : minus_assign
                (plus_assign (make day_tag 2147483610 1 1 0 0 0) 36523) 36523
              = CivilTime (Fields 2147483609 12 31 0 0 0))
    by (vm_compute; reflexivity).
  rewrite E in H.
  assert (F : make day_tag 2147483610 1 1 0 0 0
              = CivilTime (Fields 2147483610 1 1 0 0 0))
    by (vm_compute; reflexivity).
  rewrite F in H.
  specialize (H ltac:(rewrite <- F; apply reach_make;
                      unfold in_int, int_min, int_max; lia)
                ltac:(unfold in_int, int_min, int_max; lia)).
  discriminate H.
Qed.

(** ** The normalization cascade against its unbounded reference *)

Lemma n_sec_reference Y M D H Mi S :
  year_ok Y -> in_int M -> in_int D -> in_int H -> in_int Mi -> in_int S ->
  reference Y M D H Mi S (n_sec Y M D H Mi S).
Proof.
  intros HY HM HD HH HMi HS.
  pose proof (n_sec_spec Y M D H Mi S) as (N1 & [N2 N2'] & N3 & N4 & N5 & N6).
  cbv zeta in *.
  destruct N6 as (_ & F1 & F2 & F3); try assumption.
  unfold reference, canonical.
  rewrite N5 at 1. pose proof (Z.mod_pos_bound S 60).
  repeat (split; [assumption || lia |]).
  rewrite F3. unfold raw_ordinal, norm_year, norm_month.
  replace D with (1 + (D - 1)) at 1 by lia. rewrite day_ordinal_day. lia.
Qed.

Lemma reference_year_ok Y M D H Mi S r :
  in_int M -> in_int D -> in_int H -> in_int Mi -> in_int S ->
  reference Y M D H Mi S r -> safe_year (y r) -> year_ok Y.
Proof.
  intros HM HD HH HMi HS ((Cm & Cd & _) & _ & _ & _ & O) Ys.
  assert (K : -92000000 <= (H + (Mi + S / 60) / 60) / 24 <= 92000000)
    by (clear O; int_arith).
  assert (Km : -179000000 <= (M - 1) / 12 <= 179000000)
    by (clear O; int_arith).
  pose proof (days_per_month_range (y r) (m r) Cm) as R.
  pose proof (day_ordinal_bounds (y r) (m r) (d r) Cm ltac:(lia)) as [P1 P2].
  set (Y' := Y + (M - 1) / 12) in *. set (M' := (M - 1) mod 12 + 1) in *.
  assert (HM' : 1 <= M' <= 12)
    by (unfold M'; Z.to_euclidean_division_equations; lia).
  pose proof (day_ordinal_bounds Y' M' 1 HM' ltac:(lia)) as [Q1 Q2].
  unfold safe_year in Ys. unfold year_ok, in_int, int_min, int_max in *.
  set (c := (H + (Mi + S / 60) / 60) / 24) in *.
  set (q := (M - 1) / 12) in *.
  set (o := day_ordinal (y r) (m r) (d r)) in *.
  set (o' := day_ordinal Y' M' 1) in *.
  assert (EY : Y = Y' - q) by (unfold Y'; lia).
  clearbody c q o o' Y'.
  destruct (Z.le_gt_cases 0 (y r)); destruct (Z.le_gt_cases 0 Y'); lia.
Qed.

(** C3: for [int] inputs whose exact result lies within the supported year
    range, the fixed-width cascade returns that exact result. *)
Theorem normalization_exact Y M D H Mi S r :
  in_int Y -> in_int M -> in_int D -> in_int H -> in_int Mi -> in_int S ->
  reference Y M D H Mi S r -> safe_year (y r) ->
  n_sec Y M D H Mi S = r.
Proof.
  intros HY HM HD HH HMi HS Ref Ys.
  pose proof (reference_year_ok Y M D H Mi S r HM HD HH HMi HS Ref Ys) as Yok.
  pose proof (n_sec_reference Y M D H Mi S Yok HM HD HH HMi HS) as Ref'.
  destruct Ref as ((Cm & Cd & _) & Es & Em & Eh & Eo).
  destruct Ref' as ((Cm' & Cd' & _) & Es' & Em' & Eh' & Eo').
  destruct (n_sec Y M D H Mi S) as [Y1 M1 D1 H1 Mi1 S1].
  destruct r as [Y2 M2 D2 H2 Mi2 S2]. cbn [y m d hh mm ss] in *.
  rewrite <- Eo in Eo'.
  apply day_ordinal_inj in Eo'; [| split; assumption | split; assumption].
  destruct Eo' as (-> & -> & ->). congruence.
Qed.

Lemma normalization_exact_witness :
  n_sec 2015 int_min int_max int_min int_max int_min
  = Fields (-173316314) 1 3 14 52 52.
Proof.
  apply normalization_exact;
    try (unfold in_int, int_min, int_max; lia).
  - unfold reference, canonical. cbn [y m d hh mm ss].
    repeat split; vm_compute; (reflexivity || discriminate).
  - vm_compute. split; discriminate.
Defined.

(** ** Relational operators *)

Lemma lex_compare_cons x1 x2 l1 l2 :
  is_lt (lex_compare (x1 :: l1) (x2 :: l2))
    = (x1 <? x2) || ((x1 =? x2) && is_lt (lex_compare l1 l2)) /\
  is_eq (lex_compare (x1 :: l1) (x2 :: l2))
    = (x1 =? x2) && is_eq (lex_compare l1 l2) /\
  is_gt (lex_compare (x1 :: l1) (x2 :: l2))
    = (x2 <? x1) || ((x2 =? x1) && is_gt (lex_compare l1 l2)).
Proof.
  cbn [lex_compare].
  destruct (Z.compare_spec x1 x2) as [E | L | G].
  - subst. rewrite Z.ltb_irrefl, Z.eqb_refl. auto.
  - rewrite (proj2 (Z.ltb_lt x1 x2)), (proj2 (Z.ltb_ge x2 x1)),
      (proj2 (Z.eqb_neq x1 x2)), (proj2 (Z.eqb_neq x2 x1)) by lia. auto.
  - rewrite (proj2 (Z.ltb_lt x2 x1)), (proj2 (Z.ltb_ge x1 x2)),
      (proj2 (Z.eqb_neq x1 x2)), (proj2 (Z.eqb_neq x2 x1)) by lia. auto.
Qed.

Lemma lex_compare_trans l1 : forall l2 l3,
  lex_compare l1 l2 = Lt -> lex_compare l2 l3 = Lt -> lex_compare l1 l3 = Lt.
Proof.
  induction l1 as [| x1 l1 IH]; intros [| x2 l2] [| x3 l3];
    cbn [lex_compare]; try congruence.
  destruct (Z.compare_spec x1 x2); destruct (Z.compare_spec x2 x3);
    destruct (Z.compare_spec x1 x3); try congruence; try lia.
  apply IH.
Qed.

Lemma lex_compare_exclusive c :
  (is_lt c, is_eq c, is_gt c) = (true, false, false) \/
  (is_lt c, is_eq c, is_gt c) = (false, true, false) \/
  (is_lt c, is_eq c, is_gt c) = (false, false, true).
Proof. destruct c; cbn; auto. Qed.

Section Comparison.
Context {T1 T2 : tag}.
Variables (a : civil_time T1) (b : civil_time T2).

Lemma lt_lex : lt a b = is_lt (lex_compare (field_list a) (field_list b)).
Proof.
  unfold lt, field_list.
  repeat (rewrite (proj1 (lex_compare_cons _ _ _ _))).
  cbn [lex_compare is_lt]. rewrite andb_false_r, orb_false_r.
  reflexivity.
Qed.

Lemma gt_lex : lt b a = is_gt (lex_compare (field_list a) (field_list b)).
Proof.
  unfold lt, field_list.
  repeat (rewrite (proj2 (proj2 (lex_compare_cons _ _ _ _)))).
  cbn [lex_compare is_gt]. rewrite andb_false_r, orb_false_r.
  reflexivity.
Qed.

Lemma eq_lex : eq a b = is_eq (lex_compare (field_list a) (field_list b)).
Proof.
  unfold eq, field_list.
  repeat (rewrite (proj1 (proj2 (lex_compare_cons _ _ _ _)))).
  cbn [lex_compare is_eq]. rewrite andb_true_r, !andb_assoc.
  reflexivity.
Qed.

End Comparison.

(** C4: the relational operators implement the lexicographic order of the
    six stored fields, whatever the two alignments; exactly one of [<],
    [==], [>] holds, the order is transitive, and the derived operators
    agree with [<] and [==]. *)
Theorem comparison_total_order (T1 T2 T3 : tag)
    (a : civil_time T1) (b : civil_time T2) (c : civil_time T3) :
  let ab := lex_compare (field_list a) (field_list b) in
  lt a b = is_lt ab /\ eq a b = is_eq ab /\ lt b a = is_gt ab /\
  ((lt a b, eq a b, lt b a) = (true, false, false) \/
   (lt a b, eq a b, lt b a) = (false, true, false) \/
   (lt a b, eq a b, lt b a) = (false, false, true)) /\
  le a b = lt a b || eq a b /\
  ge a b = lt b a || eq a b /\
  gt a b = lt b a /\
  ne a b = negb (eq a b) /\
  implb (lt a b && lt b c) (lt a c) = true.
Proof.
  intros ab. pose proof (lt_lex a b) as L. pose proof (eq_lex a b) as E.
  pose proof (gt_lex a b) as G. fold ab in L, E, G.
  split; [exact L |]. split; [exact E |]. split; [exact G |].
  split; [rewrite L, E, G; apply lex_compare_exclusive |].
  unfold le, ge, gt, ne. rewrite L, E, G.
  split; [destruct ab; reflexivity |].
  split; [destruct ab; reflexivity |].
  split; [reflexivity |]. split; [reflexivity |].
  rewrite (lt_lex b c), (lt_lex a c).
  destruct ab eqn:Hab; cbn [is_lt andb implb]; try reflexivity.
  destruct (lex_compare (field_list b) (field_list c)) eqn:Hbc;
    cbn [is_lt implb]; try reflexivity.
  unfold ab in Hab. rewrite (lex_compare_trans _ _ _ Hab Hbc). reflexivity.
Qed.

(** ** Day ordinals in machine arithmetic *)

Lemma ymd_ord_in_int Y M D : in_int (ymd_ord Y M D).
Proof.
  unfold ymd_ord, eymd_ord, era_eymd_ord. unfold Int.sub at 1.
  apply wrap_in_int.
Qed.

Lemma ymd_ord_spec Y M D :
  -2000000000 <= Y <= 2000000000 -> 1 <= M <= 12 -> 1 <= D <= 31 ->
  ymd_ord Y M D = wrap (day_ordinal Y M D).
Proof.
  intros HY HM HD. unfold ymd_ord, eymd_ord, era_eymd_ord, day_ordinal.
  set (ey := if M <=? 2 then Y -i 1 else Y).
  assert (Ey : ey = if M <=? 2 then Y - 1 else Y)
    by (unfold ey; destruct (M <=? 2); [int_arith | reflexivity]).
  assert (By : -2000000001 <= ey <= 2000000000)
    by (rewrite Ey; destruct (M <=? 2); lia).
  rewrite <- Ey. clearbody ey.
  set (era := (if ey >=? 0 then ey else ey -i 399) /i 400).
  assert (Eera : era = ey / 400).
  { unfold era. clear era Ey. rewrite Z.geb_leb.
    destruct (Z.leb_spec 0 ey); cbv iota; int_arith. }
  rewrite <- Eera.
  assert (Bera : -5000003 <= era <= 5000000)
    by (rewrite Eera; Z.to_euclidean_division_equations; lia).
  assert (Eyoe : ey -i era *i 400 = ey - era * 400) by int_arith.
  assert (Byoe : 0 <= ey - era * 400 < 400)
    by (rewrite Eera; Z.to_euclidean_division_equations; lia).
  rewrite Eyoe. set (yoe := ey - era * 400) in *.
  clearbody yoe era.
  assert (Edoy : doy M D
                 = (153 * (M + (if M >? 2 then -3 else 9)) + 2) / 5 + D - 1)
    by (unfold doy; rewrite Z.gtb_ltb; destruct (Z.ltb_spec 2 M);
        int_arith).
  assert (Bdoy : 0 <= doy M D <= 500)
    by (rewrite Edoy, Z.gtb_ltb; destruct (Z.ltb_spec 2 M);
        Z.to_euclidean_division_equations; lia).
  assert (Edoe : doe yoe M D = yoe * 365 + yoe / 4 - yoe / 100 + doy M D)
    by (unfold doe; set (x := doy M D) in *; clearbody x; int_arith).
  rewrite <- Edoy, <- Edoe.
  unfold Int.sub, Int.add, Int.mul.
  rewrite wrap_add_l, wrap_sub_l. reflexivity.
Qed.

Lemma ymd_ord_reachable (a : civil_day) :
  reachable day_tag a -> in_int (ordinal_of a) ->
  ymd_ord (year a) (month a) (day a) = ordinal_of a /\
  -5900000 <= year a <= 5900000.
Proof.
  intros R I.
  destruct (reachable_well_formed _ a R) as (HY & (HM & HD & _) & _).
  unfold ordinal_of, year, month, day in *.
  pose proof (days_per_month_range (y (f_ a)) (m (f_ a)) HM) as Rg.
  pose proof (day_ordinal_bounds (y (f_ a)) (m (f_ a)) (d (f_ a)) HM
                ltac:(lia)) as [B1 B2].
  assert (B : -5900000 <= y (f_ a) <= 5900000).
  { unfold in_int, int_min, int_max in I.
    destruct (Z.le_gt_cases 0 (y (f_ a))); lia. }
  split; [| exact B].
  rewrite ymd_ord_spec by lia. apply wrap_id, I.
Qed.

(** C5: the difference of two day-aligned values is the [int] difference of
    their day ordinals, and where those are representable it is their
    exact difference; [ymd_ord] is the era-based ordinal of the
    specification reduced to [int], with day 0 at 1970-01-01. *)
Theorem day_difference :
  (forall a b : civil_day,
      diff a b = ymd_ord (year a) (month a) (day a)
                 -i ymd_ord (year b) (month b) (day b)) /\
  (forall Y M D,
      -2000000000 <= Y <= 2000000000 -> 1 <= M <= 12 -> 1 <= D <= 31 ->
      ymd_ord Y M D = wrap (day_ordinal Y M D)) /\
  (forall a b : civil_day,
      reachable day_tag a -> reachable day_tag b ->
      in_int (ordinal_of a) -> in_int (ordinal_of b) ->
      in_int (ordinal_of a - ordinal_of b) ->
      diff a b = ordinal_of a - ordinal_of b) /\
  ymd_ord 1970 1 1 = 0 /\ day_ordinal 1970 1 1 = 0.
Proof.
  split; [intros a b; reflexivity |].
  split; [exact ymd_ord_spec |].
  split; [| split; vm_compute; reflexivity].
  intros a b Ra Rb Ia Ib Iab.
  destruct (ymd_ord_reachable a Ra Ia) as (Ea & _).
  destruct (ymd_ord_reachable b Rb Ib) as (Eb & _).
  unfold diff, difference, difference_day.
  fold (year a) (month a) (day a) (year b) (month b) (day b).
  rewrite Ea, Eb. apply wrap_id, Iab.
Qed.

Lemma day_difference_witness :
  diff (make day_tag 2016 12 31 0 0 0) (make day_tag 1900 2 29 0 0 0)
  = ordinal_of (make day_tag 2016 12 31 0 0 0)
    - ordinal_of (make day_tag 1900 2 29 0 0 0).
Proof.
  apply day_difference;
    try (apply reach_make; unfold in_int, int_min, int_max; lia);
    vm_compute; split; discriminate.
Defined.

(** ** Weekdays *)

Lemma default_day_fields : f_ (default day_tag) = Fields 1970 1 1 0 0 0.
Proof. vm_compute. reflexivity. Qed.

Lemma get_weekday_spec (cd : civil_day) :
  get_weekday cd =
    nth (Z.to_nat (ymd_ord (year cd) (month cd) (day cd) mod 7))
        k_weekday_by_thu_off thursday.
Proof.
  unfold get_weekday, diff, difference, difference_day.
  rewrite default_day_fields. cbn [y m d].
  change (ymd_ord 1970 1 1) with 0.
  fold (year cd) (month cd) (day cd).
  pose proof (ymd_ord_in_int (year cd) (month cd) (day cd)) as I.
  set (o := ymd_ord _ _ _) in *. clearbody o.
  do 2 f_equal. int_arith.
Qed.

(** C9, for representable day ordinals: the epoch is a Thursday, the
    weekday is the table entry at the day ordinal modulo 7, and adding
    seven days keeps the weekday whenever both day ordinals are
    representable. *)
Theorem weekday_periodic (cd : civil_day) :
  reachable day_tag cd ->
  in_int (ordinal_of cd) -> in_int (ordinal_of cd + 7) ->
  get_weekday (make day_tag 1970 1 1 0 0 0) = thursday /\
  get_weekday cd =
    nth (Z.to_nat (ordinal_of cd mod 7)) k_weekday_by_thu_off thursday /\
  get_weekday (plus cd 7) = get_weekday cd /\
  get_weekday (plus_assign cd 7) = get_weekday cd.
Proof.
  intros R I I7.
  pose proof (reachable_well_formed _ cd R) as W.
  destruct (ymd_ord_reachable cd R I) as (E & B).
  split; [vm_compute; reflexivity |].
  split; [rewrite get_weekday_spec, E; reflexivity |].
  assert (P : plus cd 7 = plus_assign cd 7).
  { unfold plus, plus_assign.
    apply of_fields_well_formed, step_well_formed, W. }
  rewrite P. cut (get_weekday (plus_assign cd 7) = get_weekday cd);
    [intros Q; split; exact Q |].
  assert (R7 : reachable day_tag (plus_assign cd 7))
    by (apply reach_plus_assign;
        [exact R | unfold in_int, int_min, int_max; lia]).
  assert (O7 : ordinal_of (plus_assign cd 7) = ordinal_of cd + 7).
  { unfold ordinal_of, year, month, day, plus_assign. cbn [f_].
    apply (step_units day_tag (f_ cd) 7); try assumption.
    - discriminate.
    - unfold year_step_ok. unfold year in B. lia.
    - unfold in_int, int_min, int_max. lia. }
  assert (I7' : in_int (ordinal_of (plus_assign cd 7)))
    by (rewrite O7; exact I7).
  destruct (ymd_ord_reachable _ R7 I7') as (E7 & _).
  rewrite !get_weekday_spec, E, E7, O7.
  do 2 f_equal. Z.to_euclidean_division_equations; lia.
Qed.

Lemma weekday_periodic_witness :
  get_weekday (plus (make day_tag 2000 2 29 0 0 0) 7)
  = get_weekday (make day_tag 2000 2 29 0 0 0).
Proof.
  apply (weekday_periodic (make day_tag 2000 2 29 0 0 0)).
  - apply reach_make; unfold in_int, int_min, int_max; lia.
  - vm_compute. split; discriminate.
  - vm_compute. split; discriminate.
Defined.

(** C9 does not extend to every day: seven days after the last day whose
    ordinal is representable the ordinal wraps around and the weekday
    jumps. *)
Lemma weekday_periodic_counterexample :
  ~ (forall cd : civil_day,
        reachable day_tag cd -> get_weekday (plus cd 7) = get_weekday cd).
Proof.
  intros H.
  specialize (H (make day_tag 5881580 7 11 0 0 0)
                ltac:(apply reach_make; unfold in_int, int_min, int_max;
                      lia)).
  vm_compute in H. discriminate H.
Qed.

(** ** Binary subtraction of an [int] *)

(** C10: binary [-] steps by the negated count; the minimum [int] is its
    own negation, so subtracting it is adding it, a step of [2^31] units
    backward, where [-=] moves [2^31] units forward. *)
Theorem minus_int_min T (a : civil_time T) :
  (forall n, in_int n -> n <> int_min ->
      minus a n = plus a (- n) /\
      minus a n = of_fields T (step T (f_ a) (- n))) /\
  Int.neg int_min = int_min /\
  minus a int_min = plus a int_min /\
  (T <> year_tag -> reachable T a -> safe_year (year a) ->
   units T (f_ (minus a int_min)) = units T (f_ a) - 2147483648 /\
   units T (f_ (minus_assign a int_min)) = units T (f_ a) + 2147483648).
Proof.
  split.
  { intros n Hn Hm. unfold minus, plus.
    replace (Int.neg n) with (- n) by int_arith. split; reflexivity. }
  split; [reflexivity |]. split; [reflexivity |].
  intros NT R Ys. pose proof (reachable_well_formed T a R) as W.
  unfold safe_year, year in Ys.
  assert (Y0 : year_step_ok (y (f_ a))) by (unfold year_step_ok; lia).
  assert (Imin : in_int int_min) by (unfold in_int, int_min, int_max; lia).
  assert (Imax : in_int int_max) by (unfold in_int, int_min, int_max; lia).
  assert (I1 : in_int 1) by (unfold in_int, int_min, int_max; lia).
  split.
  - unfold minus. change (Int.neg int_min) with int_min.
    rewrite of_fields_well_formed by (apply step_well_formed, W).
    cbn [f_].
    destruct (step_units T (f_ a) int_min NT W Y0 Imin) as (U & _).
    rewrite U. reflexivity.
  - unfold minus_assign. change (negb (int_min =? int_min)) with false.
    cbv iota. cbn [f_]. change (Int.neg (int_min +i 1)) with int_max.
    destruct (step_units T (f_ a) int_max NT W Y0 Imax) as (U1 & B1).
    pose proof (step_well_formed T (f_ a) int_max W) as W1.
    assert (Y1 : year_step_ok (y (step T (f_ a) int_max)))
      by (unfold year_step_ok; lia).
    destruct (step_units T (step T (f_ a) int_max) 1 NT W1 Y1 I1) as (U2 & _).
    rewrite U2, U1. unfold int_max. lia.
Qed.

Lemma minus_int_min_witness :
  minus (make day_tag 2000 2 29 0 0 0) 1
  = plus (make day_tag 2000 2 29 0 0 0) (- (1)) /\
  units day_tag (f_ (minus (make day_tag 2000 2 29 0 0 0) int_min))
  = units day_tag (f_ (make day_tag 2000 2 29 0 0 0)) - 2147483648.
Proof.
  split.
  - apply (minus_int_min day_tag (make day_tag 2000 2 29 0 0 0)).
    + unfold in_int, int_min, int_max. lia.
    + discriminate.
  - apply (minus_int_min day_tag (make day_tag 2000 2 29 0 0 0)).
    + discriminate.
    + apply reach_make; unfold in_int, int_min, int_max; lia.
    + vm_compute. split; discriminate.
Defined.

(** ** Leap days and month overflow *)

Lemma make_eq_ordinal T Y1 M1 D1 Y2 M2 D2 :
  year_ok Y1 -> year_ok Y2 ->
  in_int M1 -> in_int D1 -> in_int M2 -> in_int D2 ->
  raw_ordinal Y1 M1 D1 = raw_ordinal Y2 M2 D2 ->
  make T Y1 M1 D1 0 0 0 = make T Y2 M2 D2 0 0 0.
Proof.
  intros HY1 HY2 HM1 HD1 HM2 HD2 E.
  assert (I0 : in_int 0) by (unfold in_int, int_min, int_max; lia).
  unfold make. f_equal.
  pose proof (n_sec_spec Y1 M1 D1 0 0 0) as (_ & V1 & _ & _ & S1 & N1).
  pose proof (n_sec_spec Y2 M2 D2 0 0 0) as (_ & V2 & _ & _ & S2 & N2).
  cbv zeta in *.
  destruct N1 as (_ & Mi1 & H1 & O1); try assumption.
  destruct N2 as (_ & Mi2 & H2 & O2); try assumption.
  rewrite <- E, <- O1 in O2.
  apply day_ordinal_inj in O2; [| assumption | assumption].
  destruct (n_sec Y1 M1 D1 0 0 0) as [y1 m1 d1 h1 mi1 s1].
  destruct (n_sec Y2 M2 D2 0 0 0) as [y2 m2 d2 h2 mi2 s2].
  cbn [y m d hh mm ss] in *. destruct O2 as (-> & -> & ->). congruence.
Qed.

(** C7: 29 February 2000 exists and follows 28 February; 29 February 1900
    is carried to 1 March; in general a day one past the end of a month is
    the first day of the next month. *)
Theorem leap_day_carry :
  is_leap_year 2000 = true /\ is_leap_year 1900 = false /\
  f_ (make day_tag 2000 2 29 0 0 0) = Fields 2000 2 29 0 0 0 /\
  make day_tag 2000 2 29 0 0 0 = plus (make day_tag 2000 2 28 0 0 0) 1 /\
  f_ (make day_tag 1900 2 29 0 0 0) = Fields 1900 3 1 0 0 0 /\
  make day_tag 1900 2 29 0 0 0 = make day_tag 1900 3 1 0 0 0 /\
  (forall Y M, safe_year Y -> 1 <= M <= 12 ->
      make day_tag Y M (days_per_month Y M + 1) 0 0 0
      = make day_tag Y (M + 1) 1 0 0 0).
Proof.
  repeat (split; [vm_compute; reflexivity |]).
  intros Y M Ys HM. pose proof (days_per_month_range Y M HM) as R.
  unfold safe_year in Ys.
  apply make_eq_ordinal;
    try (unfold year_ok, in_int, int_min, int_max; lia).
  rewrite (Z.add_comm (days_per_month Y M) 1).
  rewrite raw_ordinal_canonical, day_ordinal_day by assumption.
  destruct (Z.eq_dec M 12) as [-> | NM].
  - unfold raw_ordinal, norm_year, norm_month.
    change ((12 + 1 - 1) / 12) with 1.
    change ((12 + 1 - 1) mod 12 + 1) with 1.
    rewrite december_ordinal. lia.
  - rewrite raw_ordinal_canonical, days_per_month_ordinal by lia. lia.
Qed.

Lemma leap_day_carry_witness :
  make day_tag 2016 12 (days_per_month 2016 12 + 1) 0 0 0
  = make day_tag 2016 (12 + 1) 1 0 0 0.
Proof.
  apply leap_day_carry.
  - vm_compute. split; discriminate.
  - lia.
Defined.

(** C8: the month stage folds the month into the year by floored division,
    leaving a month in [1, 12]; [civil_month(2015, 13)] is
    [civil_month(2016, 1)]. *)
Theorem month_normalization Y M D C h mi s :
  in_int Y -> in_int M ->
  1 <= (M - 1) mod 12 + 1 <= 12 /\
  n_mon Y M D C h mi s =
    n_day (Y +i (M - 1) / 12) ((M - 1) mod 12 + 1) D C h mi s /\
  (in_int (Y + (M - 1) / 12) ->
   n_mon Y M D C h mi s =
     n_day (Y + (M - 1) / 12) ((M - 1) mod 12 + 1) D C h mi s) /\
  f_ (make month_tag 2015 13 1 0 0 0) = Fields 2016 1 1 0 0 0 /\
  make month_tag 2015 13 1 0 0 0 = make month_tag 2016 1 1 0 0 0.
Proof.
  intros HY HM.
  split; [Z.to_euclidean_division_equations; lia |].
  split; [apply n_mon_norm; assumption |].
  split; [| split; vm_compute; reflexivity].
  intros I. rewrite n_mon_norm, wrap_id by assumption. reflexivity.
Qed.

Lemma month_normalization_witness :
  n_mon 2015 (-11) 31 0 0 0 0 =
    n_day (2015 + (-11 - 1) / 12) ((-11 - 1) mod 12 + 1) 31 0 0 0 0.
Proof.
  apply month_normalization;
    unfold in_int, int_min, int_max; vm_compute; split; discriminate.
Defined.

(** * Further properties of the header *)

(** ** Arithmetic modulo [2^32] *)

Lemma wrap_spec a : exists k, wrap a = a + 4294967296 * k.
Proof.
  exists (- ((a + 2147483648) / 4294967296)). unfold wrap.
  Z.to_euclidean_division_equations; lia.
Qed.

Lemma wrap_congr a b : (a - b) mod 4294967296 = 0 -> wrap a = wrap b.
Proof.
  intros H. unfold wrap. Z.to_euclidean_division_equations; lia.
Qed.

Ltac wrap_out :=
  repeat match goal with
    | |- context [wrap ?t] =>
        lazymatch t with
        | context [wrap _] => fail
        | _ => let k := fresh "k" in let E := fresh "E" in
               destruct (wrap_spec t) as [k E]; rewrite E; clear E
        end
    end.

Ltac wrap_eq :=
  unfold Int.neg, Int.add, Int.sub, Int.mul;
  apply wrap_congr; wrap_out;
  Z.to_euclidean_division_equations; lia.

(** ** Differences and the time line *)

(** X1: the difference of two values of one alignment changes sign when
    the operands are exchanged, in [int] arithmetic, for all operands. *)
Theorem difference_antisymmetric T (a b : civil_time T) :
  diff a b = Int.neg (diff b a).
Proof.
  destruct a as [f1]. destruct b as [f2].
  unfold diff, difference. cbn [f_].
  destruct T;
    unfold difference_second, difference_minute, difference_hour,
      difference_day, difference_month, difference_year;
    set (o1 := ymd_ord (y f1) (m f1) (d f1));
    set (o2 := ymd_ord (y f2) (m f2) (d f2));
    clearbody o1 o2; wrap_eq.
Qed.

Lemma difference_units T f1 f2 :
  valid_date (y f1) (m f1) (d f1) -> valid_date (y f2) (m f2) (d f2) ->
  -2000000000 <= y f1 <= 2000000000 ->
  -2000000000 <= y f2 <= 2000000000 ->
  difference T f1 f2 = wrap (units T f1 - units T f2).
Proof.
  intros [M1 D1] [M2 D2] Y1 Y2.
  pose proof (days_per_month_range (y f1) (m f1) M1) as R1.
  pose proof (days_per_month_range (y f2) (m f2) M2) as R2.
  assert (O1 := ymd_ord_spec (y f1) (m f1) (d f1) Y1 M1 ltac:(lia)).
  assert (O2 := ymd_ord_spec (y f2) (m f2) (d f2) Y2 M2 ltac:(lia)).
  unfold difference, units.
  destruct T;
    unfold difference_second, difference_minute, difference_hour,
      difference_day, difference_month, difference_year;
    rewrite ?O1, ?O2;
    set (o1 := day_ordinal (y f1) (m f1) (d f1));
    set (o2 := day_ordinal (y f2) (m f2) (d f2));
    clearbody o1 o2; clear; wrap_eq.
Qed.

Lemma well_formed_valid T f :
  well_formed T f -> valid_date (y f) (m f) (d f).
Proof. intros (_ & (HM & HD & _) & _). split; assumption. Qed.

Lemma diff_units T (a b : civil_time T) :
  reachable T a -> reachable T b ->
  -2000000000 <= year a <= 2000000000 ->
  -2000000000 <= year b <= 2000000000 ->
  diff a b = wrap (units T (f_ a) - units T (f_ b)).
Proof.
  intros Ra Rb Ya Yb. unfold diff.
  apply difference_units; try assumption;
    eapply well_formed_valid, reachable_well_formed; eassumption.
Qed.

Lemma step_units_any T f n :
  well_formed T f -> year_step_ok (y f) -> in_int n ->
  wrap (units T (step T f n) - units T f) = n.
Proof.
  intros W Y Hn.
  destruct (tag_eq_dec T year_tag) as [-> | NT].
  - unfold step, units. cbn [y m d hh mm ss]. unfold Int.add.
    rewrite <- (wrap_id n) at 2 by assumption.
    apply wrap_congr. destruct (wrap_spec (y f + n)) as [k ->].
    Z.to_euclidean_division_equations; lia.
  - destruct (step_units T f n NT W Y Hn) as [U _]. rewrite U.
    replace (units T f + n - units T f) with n by lia.
    apply wrap_id, Hn.
Qed.

(** X2: within the supported range, the difference between a value stepped
    by [n] and the value itself is [n], whichever stepping operator is
    used. *)
Theorem step_then_difference T (a : civil_time T) n :
  reachable T a -> safe_year (year a) -> in_int n ->
  diff (plus_assign a n) a = n /\ diff (plus a n) a = n.
Proof.
  intros R Ys Hn. pose proof (reachable_well_formed T a R) as W.
  unfold safe_year, year in Ys.
  assert (P : plus a n = plus_assign a n)
    by (unfold plus, plus_assign;
        apply of_fields_well_formed, step_well_formed, W).
  rewrite P. cut (diff (plus_assign a n) a = n); [tauto |].
  unfold diff, plus_assign. cbn [f_].
  assert (Y1 : year_step_ok (y (f_ a))) by (unfold year_step_ok; lia).
  destruct (tag_eq_dec T year_tag) as [-> | NT].
  - unfold difference, difference_year, step. cbn [y m d hh mm ss].
    rewrite <- (wrap_id n) at 2 by assumption. wrap_eq.
  - pose proof (step_year_bound T (f_ a) n NT W Y1 Hn) as B.
    rewrite difference_units;
      try (eapply well_formed_valid; try apply step_well_formed;
           eassumption);
      try lia.
    apply step_units_any; assumption.
Qed.

Lemma step_then_difference_witness :
  diff (plus_assign (make second_tag 1999 12 31 23 59 59) int_min)
       (make second_tag 1999 12 31 23 59 59) = int_min.
Proof.
  refine (proj1 (step_then_difference second_tag
                   (make second_tag 1999 12 31 23 59 59) int_min _ _ _)).
  - apply reach_make; unfold in_int, int_min, int_max; lia.
  - vm_compute. split; discriminate.
  - unfold in_int, int_min, int_max. lia.
Defined.

(** X3: within the supported range, stepping a value by its difference to
    another value of the same alignment reaches that value, provided the
    exact distance between the two is an [int]. *)
Theorem difference_then_step T (a b : civil_time T) :
  reachable T a -> reachable T b ->
  safe_year (year a) -> safe_year (year b) ->
  in_int (units T (f_ b) - units T (f_ a)) ->
  plus_assign a (diff b a) = b /\ plus a (diff b a) = b.
Proof.
  intros Ra Rb Ya Yb I.
  pose proof (reachable_well_formed T a Ra) as Wa.
  pose proof (reachable_well_formed T b Rb) as Wb.
  unfold safe_year in Ya, Yb.
  assert (E : diff b a = units T (f_ b) - units T (f_ a))
    by (rewrite diff_units by (assumption || lia); apply wrap_id, I).
  assert (P : plus a (diff b a) = plus_assign a (diff b a))
    by (unfold plus, plus_assign;
        apply of_fields_well_formed, step_well_formed, Wa).
  rewrite P. cut (plus_assign a (diff b a) = b); [tauto |].
  rewrite E. destruct b as [g]. unfold plus_assign. cbn [f_] in *. f_equal.
  set (n := units T g - units T (f_ a)) in *.
  pose proof (step_well_formed T (f_ a) n Wa) as (_ & C1 & A1).
  destruct Wb as (_ & C2 & A2).
  apply (units_inj T); try assumption.
  destruct (tag_eq_dec T year_tag) as [-> | NT].
  - unfold step, units in *. cbn [y m d hh mm ss] in *.
    unfold Int.add. rewrite wrap_id; [lia |].
    subst n. replace (y (f_ a) + (y g - y (f_ a))) with (y g) by lia.
    unfold year in Yb. cbn [f_] in Yb.
    unfold in_int, int_min, int_max. lia.
  - unfold year in Ya.
    destruct (step_units T (f_ a) n NT Wa) as [U _];
      [unfold year_step_ok; lia | assumption |].
    rewrite U. subst n. lia.
Qed.

Lemma difference_then_step_witness :
  plus_assign (make hour_tag 1900 2 29 13 0 0)
    (diff (make hour_tag 2016 12 31 7 0 0) (make hour_tag 1900 2 29 13 0 0))
  = make hour_tag 2016 12 31 7 0 0.
Proof.
  refine (proj1 (difference_then_step hour_tag
                   (make hour_tag 1900 2 29 13 0 0)
                   (make hour_tag 2016 12 31 7 0 0) _ _ _ _ _)).
  - apply reach_make; unfold in_int, int_min, int_max; lia.
  - apply reach_make; unfold in_int, int_min, int_max; lia.
  - vm_compute. split; discriminate.
  - vm_compute. split; discriminate.
  - vm_compute. split; discriminate.
Defined.

(** ** The order and the time line *)

Lemma day_ordinal_lt Y1 M1 D1 Y2 M2 D2 :
  valid_date Y1 M1 D1 -> valid_date Y2 M2 D2 ->
  Y1 < Y2 \/ (Y1 = Y2 /\ (M1 < M2 \/ (M1 = M2 /\ D1 < D2))) ->
  day_ordinal Y1 M1 D1 < day_ordinal Y2 M2 D2.
Proof.
  intros V1 V2 L.
  pose proof (valid_day_of_year _ _ _ V1) as (R1 & I1 & B1).
  pose proof (valid_day_of_year _ _ _ V2) as (R2 & I2 & B2).
  rewrite !day_ordinal_split.
  destruct V1 as [HM1 HD1]. destruct V2 as [HM2 HD2].
  set (c1 := shifted_year Y1 M1) in *. set (c2 := shifted_year Y2 M2) in *.
  set (s1 := shifted_month M1) in *. set (s2 := shifted_month M2) in *.
  assert (L' : c1 < c2 \/ (c1 = c2 /\ (s1 < s2 \/ (s1 = s2 /\ D1 < D2)))).
  { subst c1 c2 s1 s2. unfold shifted_year, shifted_month.
    rewrite !Z.gtb_ltb.
    destruct (Z.leb_spec M1 2); destruct (Z.leb_spec M2 2);
      destruct (Z.ltb_spec 2 M1); destruct (Z.ltb_spec 2 M2); lia. }
  destruct L' as [Lc | (Ec & Ls)].
  - pose proof (days_before_year_succ c1) as S1.
    pose proof (days_before_year_mono (c1 + 1) c2 ltac:(lia)).
    destruct (leap_year (c1 + 1)); lia.
  - rewrite Ec. cut (day_of_year M1 D1 < day_of_year M2 D2); [lia |].
    destruct Ls as [Ls | (Es & Ld)].
    + destruct (Z.lt_ge_cases (day_of_year M1 D1) (day_of_year M2 D2))
        as [Lt | Ge]; [exact Lt | exfalso].
      assert (Q : (5 * day_of_year M2 D2 + 2) / 153
                  <= (5 * day_of_year M1 D1 + 2) / 153)
        by (apply Z.div_le_mono; lia).
      lia.
    + unfold day_of_year. fold s1 s2. rewrite Es. lia.
Qed.

Lemma lt_units_mono T f1 f2 :
  canonical f1 -> canonical f2 -> aligned T f1 -> aligned T f2 ->
  @lt T T (CivilTime f1) (CivilTime f2) = true ->
  units T f1 < units T f2.
Proof.
  destruct f1 as [Y1 M1 D1 H1 Mi1 S1]. destruct f2 as [Y2 M2 D2 H2 Mi2 S2].
  unfold canonical, aligned, units, lt, year, month, day, hour, minute,
    second.
  cbn [f_ y m d hh mm ss].
  intros (HM1 & HD1 & HH1 & HMi1 & HS1) (HM2 & HD2 & HH2 & HMi2 & HS2) A1 A2 L.
  repeat (rewrite orb_true_iff in L || rewrite andb_true_iff in L).
  rewrite ?Z.ltb_lt, ?Z.eqb_eq in L.
  assert (V1 : valid_date Y1 M1 D1) by (split; assumption).
  assert (V2 : valid_date Y2 M2 D2) by (split; assumption).
  assert (C : (Y1 < Y2 \/ (Y1 = Y2 /\ (M1 < M2 \/ (M1 = M2 /\ D1 < D2)))) \/
              (Y1 = Y2 /\ M1 = M2 /\ D1 = D2 /\
               (H1 < H2 \/ (H1 = H2 /\
                  (Mi1 < Mi2 \/ (Mi1 = Mi2 /\ S1 < S2)))))) by tauto.
  clear L. destruct C as [C | (-> & -> & -> & C)].
  - pose proof (day_ordinal_lt _ _ _ _ _ _ V1 V2 C) as O.
    destruct T; lia.
  - destruct T; lia.
Qed.

Lemma eq_true_fields {T1 T2} (a : civil_time T1) (b : civil_time T2) :
  eq a b = true -> f_ a = f_ b.
Proof.
  destruct a as [[Y1 M1 D1 H1 Mi1 S1]]. destruct b as [[Y2 M2 D2 H2 Mi2 S2]].
  unfold eq, year, month, day, hour, minute, second.
  cbn [f_ y m d hh mm ss].
  rewrite !andb_true_iff, !Z.eqb_eq. intros. f_equal; tauto.
Qed.

Lemma lt_units T (a b : civil_time T) :
  well_formed T (f_ a) -> well_formed T (f_ b) ->
  lt a b = (units T (f_ a) <? units T (f_ b)).
Proof.
  destruct a as [f1]. destruct b as [f2]. cbn [f_].
  intros (_ & C1 & A1) (_ & C2 & A2).
  pose proof (lt_units_mono T f1 f2 C1 C2 A1 A2) as L12.
  pose proof (lt_units_mono T f2 f1 C2 C1 A2 A1) as L21.
  pose proof (lt_lex (T1:=T) (T2:=T) (CivilTime f1) (CivilTime f2)) as E1.
  pose proof (gt_lex (T1:=T) (T2:=T) (CivilTime f1) (CivilTime f2)) as E2.
  pose proof (eq_lex (T1:=T) (T2:=T) (CivilTime f1) (CivilTime f2)) as E3.
  destruct (Z.ltb_spec (units T f1) (units T f2)) as [U | U].
  - destruct (lex_compare _ _); cbn [is_lt is_gt is_eq] in *;
      try assumption.
    + apply eq_true_fields in E3. cbn [f_] in E3. subst f2. lia.
    + specialize (L21 E2). lia.
  - destruct (lt (CivilTime f1) (CivilTime f2)); [| reflexivity].
    specialize (L12 eq_refl). lia.
Qed.

(** X4: within the supported range and for two values of one alignment
    whose exact distance is an [int], [a < b] holds exactly when the
    difference [a - b] is negative, and [a == b] exactly when it is zero. *)
Theorem order_by_difference T (a b : civil_time T) :
  reachable T a -> reachable T b ->
  safe_year (year a) -> safe_year (year b) ->
  in_int (units T (f_ a) - units T (f_ b)) ->
  lt a b = (diff a b <? 0) /\ eq a b = (diff a b =? 0).
Proof.
  intros Ra Rb Ya Yb I.
  pose proof (reachable_well_formed T a Ra) as Wa.
  pose proof (reachable_well_formed T b Rb) as Wb.
  unfold safe_year in Ya, Yb.
  rewrite diff_units, wrap_id by (assumption || lia).
  split.
  - rewrite lt_units by assumption.
    destruct (Z.ltb_spec (units T (f_ a)) (units T (f_ b)));
      destruct (Z.ltb_spec (units T (f_ a) - units T (f_ b)) 0);
      reflexivity || lia.
  - destruct (Z.eqb_spec (units T (f_ a) - units T (f_ b)) 0) as [E | N].
    + destruct Wa as (_ & Ca & Aa). destruct Wb as (_ & Cb & Ab).
      assert (F : f_ a = f_ b) by (apply (units_inj T); assumption || lia).
      unfold eq, year, month, day, hour, minute, second. rewrite F.
      rewrite !Z.eqb_refl. reflexivity.
    + destruct (eq a b) eqn:Q; [| reflexivity]. exfalso. apply N.
      apply eq_true_fields in Q. rewrite Q. lia.
Qed.

Lemma order_by_difference_witness :
  lt (make day_tag 1900 2 29 0 0 0) (make day_tag 2016 12 31 0 0 0)
  = (diff (make day_tag 1900 2 29 0 0 0) (make day_tag 2016 12 31 0 0 0)
     <? 0).
Proof.
  refine (proj1 (order_by_difference day_tag
                   (make day_tag 1900 2 29 0 0 0)
                   (make day_tag 2016 12 31 0 0 0) _ _ _ _ _)).
  - apply reach_make; unfold in_int, int_min, int_max; lia.
  - apply reach_make; unfold in_int, int_min, int_max; lia.
  - vm_compute. split; discriminate.
  - vm_compute. split; discriminate.
  - vm_compute. split; discriminate.
Defined.

(** X5: within the supported range and for an alignment finer than the
    year, stepping two values by the same count keeps their order, and
    stepping by a positive count gives a later value. *)
Theorem step_monotone T (a b : civil_time T) n :
  T <> year_tag -> reachable T a -> reachable T b ->
  safe_year (year a) -> safe_year (year b) -> in_int n ->
  lt (plus_assign a n) (plus_assign b n) = lt a b /\
  lt a (plus_assign a n) = (0 <? n).
Proof.
  intros NT Ra Rb Ya Yb Hn.
  pose proof (reachable_well_formed T a Ra) as Wa.
  pose proof (reachable_well_formed T b Rb) as Wb.
  unfold safe_year, year in Ya, Yb.
  pose proof (step_well_formed T (f_ a) n Wa) as Wa'.
  pose proof (step_well_formed T (f_ b) n Wb) as Wb'.
  rewrite !lt_units by assumption. unfold plus_assign. cbn [f_].
  destruct (step_units T (f_ a) n NT Wa) as [Ua _];
    [unfold year_step_ok; lia | assumption |].
  destruct (step_units T (f_ b) n NT Wb) as [Ub _];
    [unfold year_step_ok; lia | assumption |].
  rewrite Ua, Ub.
  split;
    repeat match goal with
      | |- context [?u <? ?v] => destruct (Z.ltb_spec u v)
      end; reflexivity || lia.
Qed.

Lemma step_monotone_witness :
  lt (plus_assign (make month_tag 1999 12 1 0 0 0) int_min)
     (plus_assign (make month_tag 2000 1 1 0 0 0) int_min)
  = lt (make month_tag 1999 12 1 0 0 0) (make month_tag 2000 1 1 0 0 0).
Proof.
  refine (proj1 (step_monotone month_tag
                   (make month_tag 1999 12 1 0 0 0)
                   (make month_tag 2000 1 1 0 0 0) int_min _ _ _ _ _ _)).
  - discriminate.
  - apply reach_make; unfold in_int, int_min, int_max; lia.
  - apply reach_make; unfold in_int, int_min, int_max; lia.
  - vm_compute. split; discriminate.
  - vm_compute. split; discriminate.
  - unfold in_int, int_min, int_max. lia.
Defined.

(** ** Conversions between alignments *)

Lemma align_fixed T U f :
  is_base_of T U = true -> aligned U f -> aligned T f.
Proof.
  destruct T, U; cbn; intros B A; try discriminate; tauto.
Qed.

(** X6: converting a value to a finer alignment (the implicit conversion)
    keeps every field, compares equal to the original, and converting back
    returns the original value. *)
Theorem widening_lossless T U (a : civil_time U) :
  is_base_of T U = true -> reachable U a ->
  f_ (convert T a) = f_ a /\
  eq (convert T a) a = true /\
  convert U (convert T a) = a.
Proof.
  intros B R. destruct (reachable_well_formed U a R) as (HY & HC & A).
  assert (E : f_ (convert T a) = f_ a)
    by (unfold convert, of_fields; cbn [f_];
        apply align_id, (align_fixed T U), A; exact B).
  split; [exact E |]. split.
  - unfold eq, year, month, day, hour, minute, second. rewrite E.
    rewrite !Z.eqb_refl. reflexivity.
  - unfold convert at 1. rewrite E. destruct a as [f]. cbn [f_] in *.
    unfold of_fields. rewrite align_id by assumption. reflexivity.
Qed.

Lemma widening_lossless_witness :
  convert day_tag (convert second_tag (make day_tag 1900 2 29 0 0 0))
  = make day_tag 1900 2 29 0 0 0.
Proof.
  refine (proj2 (proj2 (widening_lossless second_tag day_tag
                          (make day_tag 1900 2 29 0 0 0) _ _))).
  - reflexivity.
  - apply reach_make; unfold in_int, int_min, int_max; lia.
Defined.

(** X7: converting a value to any alignment never gives a later value, and
    narrowing through an intermediate finer alignment gives the same result
    as narrowing at once. *)
Theorem narrowing_rounds_down T S U (a : civil_time U) :
  reachable U a ->
  le (convert T a) a = true /\
  (is_base_of S T = true -> convert T (convert S a) = convert T a).
Proof.
  intros R. destruct (reachable_well_formed U a R) as (HY & HC & A).
  destruct a as [[Y M D H Mi Sc]]. unfold canonical in HC.
  cbn [f_ y m d hh mm ss] in *.
  destruct HC as (HM & HD & HH & HMi & HS).
  split.
  - unfold le, lt, convert, of_fields, year, month, day, hour, minute,
      second.
    destruct T; cbn [f_ align y m d hh mm ss];
      rewrite ?Z.ltb_irrefl, ?Z.eqb_refl; cbn [orb andb];
      repeat match goal with
        | |- context [?u <? ?v] =>
            destruct (Z.ltb_spec u v); [lia |]; cbn [orb andb]
        | |- context [?u =? ?v] => destruct (u =? v); cbn [orb andb]
        end; reflexivity.
  - intros B. unfold convert, of_fields. cbn [f_]. f_equal.
    destruct T, S; try discriminate B; reflexivity.
Qed.

Lemma narrowing_rounds_down_witness :
  convert month_tag (convert hour_tag (make second_tag 2016 12 31 23 59 59))
  = convert month_tag (make second_tag 2016 12 31 23 59 59).
Proof.
  refine (proj2 (narrowing_rounds_down month_tag hour_tag second_tag
                   (make second_tag 2016 12 31 23 59 59) _) _).
  - apply reach_make; unfold in_int, int_min, int_max; lia.
  - reflexivity.
Defined.

(** ** The period tables against the leap-year rule *)

Lemma sum_over_telescope (F g : Z -> Z) (n : nat) :
  (forall i, 0 <= i < Z.of_nat n -> F (i + 1) = F i + g i) ->
  sum_over n g = F (Z.of_nat n) - F 0.
Proof.
  induction n as [| n IH]; intros Hs; cbn [sum_over].
  - change (Z.of_nat 0) with 0. lia.
  - rewrite IH by (intros i Hi; apply Hs; lia).
    rewrite Nat2Z.inj_succ. unfold Z.succ. rewrite (Hs (Z.of_nat n)) by lia.
    lia.
Qed.

(** X8: the lookups never leave the two 400-entry tables, and the table
    values agree with the leap-year rule: the days of a 4-year and of a
    100-year block are the sums of the days of their years, four
    consecutive 100-year blocks hold 146097 days, and the days of a year
    are the sum of the days of its twelve months. *)
Theorem period_tables Y M :
  in_int Y -> Y + 400 <= int_max ->
  0 <= year_index Y M < 400 /\
  Z.of_nat (length k_days_per_century) = 400 /\
  Z.of_nat (length k_days_per_4years) = 400 /\
  days_per_4years Y M = sum_over 4 (fun i => days_per_year (Y + i) M) /\
  days_per_century Y M = sum_over 100 (fun i => days_per_year (Y + i) M) /\
  sum_over 4 (fun j => days_per_century (Y + 100 * j) M) = 146097 /\
  (1 <= M <= 12 ->
   days_per_year Y M =
     sum_over 12 (fun i => days_per_month (norm_year Y (M + i))
                                          (norm_month (M + i)))).
Proof.
  intros HY HB. unfold in_int, int_min, int_max in *.
  split; [apply year_index_range |].
  split; [reflexivity |]. split; [reflexivity |].
  assert (Years : forall n, (n <= 400)%nat ->
            sum_over n (fun i => days_per_year (Y + i) M)
            = day_ordinal (Y + Z.of_nat n) M 1 - day_ordinal Y M 1).
  { intros n Hn.
    rewrite (sum_over_telescope (fun i => day_ordinal (Y + i) M 1)).
    - rewrite Z.add_0_r. reflexivity.
    - intros i Hi. cbv beta. rewrite Z.add_assoc.
      apply days_per_year_ordinal; unfold in_int, int_min, int_max; lia. }
  split.
  { rewrite Years by lia. change (Z.of_nat 4) with 4.
    rewrite days_per_4years_ordinal
      by (unfold in_int, int_min, int_max; lia). lia. }
  split.
  { rewrite Years by lia. change (Z.of_nat 100) with 100.
    rewrite days_per_century_ordinal
      by (unfold in_int, int_min, int_max; lia). lia. }
  split.
  { rewrite (sum_over_telescope (fun j => day_ordinal (Y + 100 * j) M 1)).
    - change (Z.of_nat 4) with 4. rewrite Z.mul_0_r, Z.add_0_r.
      replace (Y + 100 * 4) with (Y + 400 * 1) by lia.
      rewrite day_ordinal_era. lia.
    - intros i Hi. cbv beta.
      replace (Y + 100 * (i + 1)) with (Y + 100 * i + 100) by lia.
      apply days_per_century_ordinal; unfold in_int, int_min, int_max; lia. }
  intros HM.
  rewrite (sum_over_telescope (fun i => raw_ordinal Y (M + i) 1)).
  - change (Z.of_nat 12) with 12. unfold raw_ordinal, norm_year, norm_month.
    rewrite Z.add_0_r.
    replace ((M + 12 - 1) / 12) with ((M - 1) / 12 + 1)
      by (Z.to_euclidean_division_equations; lia).
    replace ((M + 12 - 1) mod 12) with ((M - 1) mod 12)
      by (Z.to_euclidean_division_equations; lia).
    replace ((M - 1) / 12) with 0
      by (Z.to_euclidean_division_equations; lia).
    replace ((M - 1) mod 12 + 1) with M
      by (Z.to_euclidean_division_equations; lia).
    rewrite Z.add_0_r, days_per_year_ordinal
      by (unfold in_int, int_min, int_max; lia).
    lia.
  - intros i Hi. cbv beta. unfold raw_ordinal, norm_year, norm_month.
    replace (M + (i + 1) - 1) with (M + i - 1 + 1) by lia.
    set (q := (M + i - 1) / 12). set (r := (M + i - 1) mod 12).
    assert (Hr : 0 <= r < 12) by (apply Z.mod_pos_bound; lia).
    assert (Hq : M + i - 1 = 12 * q + r)
      by (apply Z.div_mod; lia).
    destruct (Z.eq_dec r 11) as [E11 | N11].
    + replace ((M + i - 1 + 1) / 12) with (q + 1)
        by (Z.to_euclidean_division_equations; lia).
      replace ((M + i - 1 + 1) mod 12) with 0
        by (Z.to_euclidean_division_equations; lia).
      rewrite E11. change (11 + 1) with 12. change (0 + 1) with 1.
      rewrite Z.add_assoc. apply december_ordinal.
    + replace ((M + i - 1 + 1) / 12) with q
        by (Z.to_euclidean_division_equations; lia).
      replace ((M + i - 1 + 1) mod 12) with (r + 1)
        by (Z.to_euclidean_division_equations; lia).
      apply days_per_month_ordinal. lia.
Qed.

Lemma period_tables_witness :
  days_per_century 1900 3
  = sum_over 100 (fun i => days_per_year (1900 + i) 3).
Proof.
  refine (proj1 (proj2 (proj2 (proj2 (proj2
            (period_tables 1900 3 _ _)))))).
  - unfold in_int, int_min, int_max. lia.
  - unfold int_max. lia.
Defined.

(** ** Day of the year *)

Lemma month_starts Y (k : nat) :
  (k < 12)%nat ->
  sum_over k (fun i => days_per_month Y (i + 1))
  = day_ordinal Y (Z.of_nat k + 1) 1 - day_ordinal Y 1 1.
Proof.
  intros Hk.
  rewrite (sum_over_telescope (fun i => day_ordinal Y (i + 1) 1)).
  - reflexivity.
  - intros i Hi. cbv beta. apply days_per_month_ordinal. lia.
Qed.

(** X9: for a year of magnitude up to [2 * 10^9], the day of the year is
    the day of the month plus the lengths of the earlier months of that
    year; it lies between 1 and the number of days of the year. *)
Theorem yearday_by_months (cd : civil_day) :
  reachable day_tag cd -> -2000000000 <= year cd <= 2000000000 ->
  get_yearday cd =
    sum_over (Z.to_nat (month cd - 1))
             (fun i => days_per_month (year cd) (i + 1)) + day cd /\
  1 <= get_yearday cd <= days_per_year (year cd) 1.
Proof.
  intros R HY. destruct (reachable_well_formed _ cd R) as (_ & HC & _).
  destruct HC as (HM & HD & _).
  unfold year, month, day in *. set (f := f_ cd) in *.
  pose proof (days_per_month_range (y f) (m f) HM) as Rg.
  assert (E : get_yearday cd
              = day_ordinal (y f) (m f) (d f) - day_ordinal (y f) 1 1 + 1
                /\ 1 <= day_ordinal (y f) (m f) (d f)
                        - day_ordinal (y f) 1 1 + 1
                     <= days_per_year (y f) 1).
  { assert (B : 0 <= day_ordinal (y f) (m f) (d f) - day_ordinal (y f) 1 1
                  <= days_per_year (y f) 1 - 1).
    { assert (V : valid_date (y f) (m f) (d f)) by (split; assumption).
      pose proof (valid_day_of_year _ _ _ V) as (_ & _ & B1).
      unfold days_per_year. rewrite is_leap_year_spec.
      change (Int.of_bool (1 >? 2)) with 0.
      replace (y f +i 0) with (y f) by int_arith.
      rewrite !day_ordinal_split.
      unfold shifted_year, day_of_year, shifted_month in *.
      change (1 <=? 2) with true. change (1 >? 2) with false. cbv iota.
      rewrite Z.gtb_ltb in *.
      destruct (Z.leb_spec (m f) 2); destruct (Z.ltb_spec 2 (m f));
        try lia.
      - replace (y f - 1 + 1) with (y f) in B1 by lia.
        destruct (leap_year (y f));
          Z.to_euclidean_division_equations; lia.
      - pose proof (days_before_year_succ (y f - 1)) as S.
        replace (y f - 1 + 1) with (y f) in S by lia.
        destruct (leap_year (y f)); destruct (leap_year (y f + 1));
          Z.to_euclidean_division_equations; lia. }
    split; [| lia].
    unfold get_yearday, diff, difference, difference_day, convert, of_fields.
    cbn [f_ align y m d]. fold f.
    rewrite !ymd_ord_spec by lia.
    set (o1 := day_ordinal (y f) (m f) (d f)) in *.
    set (o0 := day_ordinal (y f) 1 1) in *.
    pose proof (days_per_year_range (y f) 1) as Ry.
    rewrite <- (wrap_id (o1 - o0 + 1))
      by (unfold in_int, int_min, int_max; lia).
    clearbody o1 o0. clear. wrap_eq. }
  destruct E as [E B]. rewrite E. split; [| exact B].
  rewrite month_starts by lia.
  rewrite Z2Nat.id by lia.
  replace (m f - 1 + 1) with (m f) by lia.
  replace (d f) with (1 + (d f - 1)) at 1 by lia.
  rewrite day_ordinal_day. lia.
Qed.

Lemma yearday_by_months_witness :
  1 <= get_yearday (make day_tag 2016 12 31 0 0 0)
    <= days_per_year (year (make day_tag 2016 12 31 0 0 0)) 1.
Proof.
  refine (proj2 (yearday_by_months (make day_tag 2016 12 31 0 0 0) _ _)).
  - apply reach_make; unfold in_int, int_min, int_max; lia.
  - vm_compute. split; discriminate.
Defined.

(** ** Walking along the weekdays *)

Lemma weekday_of_offset o wd :
  0 <= o < 7 ->
  (nth (Z.to_nat o) k_weekday_by_thu_off thursday = wd <-> o = thu_offset wd).
Proof.
  intros Ho.
  assert (C : o = 0 \/ o = 1 \/ o = 2 \/ o = 3 \/ o = 4 \/ o = 5 \/ o = 6)
    by lia.
  repeat (destruct C as [-> | C]); try subst o;
    destruct wd; cbv; split; intros E; congruence.
Qed.

Lemma weekday_ne_spec a b : weekday_ne a b = false <-> a = b.
Proof. destruct a, b; cbn; split; intros E; congruence. Qed.

Lemma get_weekday_offset (cd : civil_day) wd :
  reachable day_tag cd -> in_int (ordinal_of cd) ->
  (get_weekday cd = wd <-> ordinal_of cd mod 7 = thu_offset wd).
Proof.
  intros R I. destruct (ymd_ord_reachable cd R I) as (E & _).
  rewrite get_weekday_spec, E. apply weekday_of_offset.
  apply Z.mod_pos_bound. lia.
Qed.

Lemma day_step (cd : civil_day) n :
  reachable day_tag cd -> in_int (ordinal_of cd) -> in_int n ->
  ordinal_of (CivilTime (T:=day_tag) (step day_tag (f_ cd) n))
  = ordinal_of cd + n.
Proof.
  intros R I Hn.
  destruct (ymd_ord_reachable cd R I) as (_ & B).
  unfold ordinal_of, year, month, day in *. cbn [f_].
  apply (step_units day_tag (f_ cd) n); try assumption.
  - discriminate.
  - apply reachable_well_formed, R.
  - unfold year_step_ok. lia.
Qed.

Lemma plus_one_day (cd : civil_day) :
  reachable day_tag cd -> in_int (ordinal_of cd) ->
  reachable day_tag (plus_assign cd 1) /\
  ordinal_of (plus_assign cd 1) = ordinal_of cd + 1.
Proof.
  intros R I.
  assert (I1 : in_int 1) by (unfold in_int, int_min, int_max; lia).
  split; [apply reach_plus_assign; assumption |].
  apply day_step; assumption.
Qed.

Lemma minus_one_day (cd : civil_day) :
  reachable day_tag cd -> in_int (ordinal_of cd) ->
  reachable day_tag (minus_assign cd 1) /\
  ordinal_of (minus_assign cd 1) = ordinal_of cd - 1.
Proof.
  intros R I.
  assert (I1 : in_int 1) by (unfold in_int, int_min, int_max; lia).
  split; [apply reach_minus_assign; assumption |].
  unfold minus_assign. change (negb (1 =? int_min)) with true. cbv iota.
  change (Int.neg 1) with (-1).
  rewrite day_step
    by (assumption || (unfold in_int, int_min, int_max; lia)).
  lia.
Qed.

(** X10: where the day ordinals are representable, the day after a day
    falls on the following weekday (Sunday is followed by Monday). *)
Theorem weekday_successor (cd : civil_day) :
  reachable day_tag cd ->
  in_int (ordinal_of cd) -> in_int (ordinal_of cd + 1) ->
  get_weekday (plus_assign cd 1) = next_day (get_weekday cd) /\
  get_weekday (plus cd 1) = next_day (get_weekday cd).
Proof.
  intros R I I1.
  assert (P : plus cd 1 = plus_assign cd 1)
    by (unfold plus, plus_assign;
        apply of_fields_well_formed, step_well_formed,
          reachable_well_formed, R).
  rewrite P. cut (get_weekday (plus_assign cd 1) = next_day (get_weekday cd));
    [tauto |].
  destruct (plus_one_day cd R I) as (R1 & O1).
  apply get_weekday_offset; [assumption | rewrite O1; assumption |].
  rewrite O1.
  assert (E : ordinal_of cd mod 7 = thu_offset (get_weekday cd))
    by (apply get_weekday_offset; auto).
  destruct (get_weekday cd); cbn [next_day thu_offset] in *;
    Z.to_euclidean_division_equations; lia.
Qed.

Lemma weekday_successor_witness :
  get_weekday (plus_assign (make day_tag 2000 2 29 0 0 0) 1)
  = next_day (get_weekday (make day_tag 2000 2 29 0 0 0)).
Proof.
  refine (proj1 (weekday_successor (make day_tag 2000 2 29 0 0 0) _ _ _)).
  - apply reach_make; unfold in_int, int_min, int_max; lia.
  - vm_compute. split; discriminate.
  - vm_compute. split; discriminate.
Defined.

Lemma next_weekday_steps wd (n : nat) :
  forall (cd : civil_day) (fuel : nat),
    reachable day_tag cd -> in_int (ordinal_of cd) ->
    in_int (ordinal_of cd + Z.of_nat n + 1) ->
    (thu_offset wd - ordinal_of cd - 1) mod 7 = Z.of_nat n ->
    (n < fuel)%nat ->
    exists r, next_weekday fuel cd wd = Some r /\
              reachable day_tag r /\
              ordinal_of r = ordinal_of cd + Z.of_nat n + 1.
Proof.
  induction n as [| n IH]; intros cd fuel R I In D Hf;
    (destruct fuel as [| fuel]; [lia |]); cbn [next_weekday];
    destruct (plus_one_day cd R I) as (R1 & O1);
    assert (I1 : in_int (ordinal_of (plus_assign cd 1)))
      by (rewrite O1; unfold in_int, int_min, int_max in *; lia).
  - assert (W : get_weekday (plus_assign cd 1) = wd).
    { apply get_weekday_offset; try assumption. rewrite O1.
      destruct wd; cbn [thu_offset] in *;
        Z.to_euclidean_division_equations; lia. }
    rewrite (proj2 (weekday_ne_spec _ _) W).
    exists (plus_assign cd 1). repeat split; try assumption.
    rewrite O1. change (Z.of_nat 0) with 0. lia.
  - assert (W : weekday_ne (get_weekday (plus_assign cd 1)) wd = true).
    { destruct (weekday_ne _ wd) eqn:Q; [reflexivity | exfalso].
      apply weekday_ne_spec in Q.
      apply get_weekday_offset in Q; try assumption. rewrite O1 in Q.
      rewrite Nat2Z.inj_succ in D. unfold Z.succ in D.
      pose proof (Zle_0_nat n).
      destruct wd; cbn [thu_offset] in *;
        Z.to_euclidean_division_equations; lia. }
    rewrite W.
    destruct (IH (plus_assign cd 1) fuel R1 I1) as (r & E & Rr & Or).
    + rewrite O1. rewrite Nat2Z.inj_succ in In. unfold Z.succ in In.
      replace (ordinal_of cd + 1 + Z.of_nat n + 1)
        with (ordinal_of cd + (Z.of_nat n + 1) + 1) by lia.
      exact In.
    + rewrite O1. rewrite Nat2Z.inj_succ in D. unfold Z.succ in D.
      pose proof (Zle_0_nat n).
      Z.to_euclidean_division_equations; lia.
    + lia.
    + exists r. repeat split; try assumption.
      rewrite Or, O1, Nat2Z.inj_succ. lia.
Qed.

(** X11: where the day ordinals are representable, seven iterations
    suffice for [next_weekday]: it returns the first day strictly after
    the given day that falls on the wanted weekday, one to seven days
    later. *)
Theorem next_weekday_first (cd : civil_day) wd (fuel : nat) :
  reachable day_tag cd ->
  in_int (ordinal_of cd) -> in_int (ordinal_of cd + 7) ->
  (7 <= fuel)%nat ->
  exists r,
    next_weekday fuel cd wd = Some r /\
    get_weekday r = wd /\
    ordinal_of r
    = ordinal_of cd + ((thu_offset wd - ordinal_of cd - 1) mod 7 + 1) /\
    1 <= ordinal_of r - ordinal_of cd <= 7 /\
    (forall cd' : civil_day,
        reachable day_tag cd' ->
        ordinal_of cd < ordinal_of cd' < ordinal_of r ->
        get_weekday cd' <> wd).
Proof.
  intros R I I7 Hf.
  set (t := (thu_offset wd - ordinal_of cd - 1) mod 7).
  assert (Ht : 0 <= t < 7) by (apply Z.mod_pos_bound; lia).
  assert (Et : Z.of_nat (Z.to_nat t) = t) by (apply Z2Nat.id; lia).
  destruct (next_weekday_steps wd (Z.to_nat t) cd fuel R I)
    as (r & E & Rr & Or).
  - rewrite Et. unfold in_int, int_min, int_max in *. lia.
  - rewrite Et. reflexivity.
  - lia.
  - rewrite Et in Or.
    assert (Ir : in_int (ordinal_of r))
      by (rewrite Or; unfold in_int, int_min, int_max in *; lia).
    exists r. split; [exact E |].
    split.
    { apply get_weekday_offset; try assumption. rewrite Or.
      unfold t. destruct wd; cbn [thu_offset];
        Z.to_euclidean_division_equations; lia. }
    split; [rewrite Or; lia |]. split; [lia |].
    intros cd' R' B W.
    assert (I' : in_int (ordinal_of cd'))
      by (unfold in_int, int_min, int_max in *; lia).
    apply get_weekday_offset in W; try assumption.
    unfold t in *. destruct wd; cbn [thu_offset] in *;
      Z.to_euclidean_division_equations; lia.
Qed.

Lemma next_weekday_first_witness :
  exists r,
    next_weekday 7 (make day_tag 2000 2 29 0 0 0) tuesday = Some r /\
    get_weekday r = tuesday /\
    ordinal_of r
    = ordinal_of (make day_tag 2000 2 29 0 0 0)
      + ((thu_offset tuesday
          - ordinal_of (make day_tag 2000 2 29 0 0 0) - 1) mod 7 + 1) /\
    1 <= ordinal_of r - ordinal_of (make day_tag 2000 2 29 0 0 0) <= 7 /\
    (forall cd' : civil_day,
        reachable day_tag cd' ->
        ordinal_of (make day_tag 2000 2 29 0 0 0) < ordinal_of cd'
          < ordinal_of r ->
        get_weekday cd' <> tuesday).
Proof.
  apply (next_weekday_first (make day_tag 2000 2 29 0 0 0) tuesday 7).
  - apply reach_make; unfold in_int, int_min, int_max; lia.
  - vm_compute. split; discriminate.
  - vm_compute. split; discriminate.
  - lia.
Defined.

Lemma prev_weekday_steps wd (n : nat) :
  forall (cd : civil_day) (fuel : nat),
    reachable day_tag cd -> in_int (ordinal_of cd) ->
    in_int (ordinal_of cd - Z.of_nat n - 1) ->
    (ordinal_of cd - 1 - thu_offset wd) mod 7 = Z.of_nat n ->
    (n < fuel)%nat ->
    exists r, prev_weekday fuel cd wd = Some r /\
              reachable day_tag r /\
              ordinal_of r = ordinal_of cd - Z.of_nat n - 1.
Proof.
  induction n as [| n IH]; intros cd fuel R I In D Hf;
    (destruct fuel as [| fuel]; [lia |]); cbn [prev_weekday];
    destruct (minus_one_day cd R I) as (R1 & O1);
    assert (I1 : in_int (ordinal_of (minus_assign cd 1)))
      by (rewrite O1; unfold in_int, int_min, int_max in *; lia).
  - assert (W : get_weekday (minus_assign cd 1) = wd).
    { apply get_weekday_offset; try assumption. rewrite O1.
      destruct wd; cbn [thu_offset] in *;
        Z.to_euclidean_division_equations; lia. }
    rewrite (proj2 (weekday_ne_spec _ _) W).
    exists (minus_assign cd 1). repeat split; try assumption.
    rewrite O1. change (Z.of_nat 0) with 0. lia.
  - assert (W : weekday_ne (get_weekday (minus_assign cd 1)) wd = true).
    { destruct (weekday_ne _ wd) eqn:Q; [reflexivity | exfalso].
      apply weekday_ne_spec in Q.
      apply get_weekday_offset in Q; try assumption. rewrite O1 in Q.
      rewrite Nat2Z.inj_succ in D. unfold Z.succ in D.
      pose proof (Zle_0_nat n).
      destruct wd; cbn [thu_offset] in *;
        Z.to_euclidean_division_equations; lia. }
    rewrite W.
    destruct (IH (minus_assign cd 1) fuel R1 I1) as (r & E & Rr & Or).
    + rewrite O1. rewrite Nat2Z.inj_succ in In. unfold Z.succ in In.
      replace (ordinal_of cd - 1 - Z.of_nat n - 1)
        with (ordinal_of cd - (Z.of_nat n + 1) - 1) by lia.
      exact In.
    + rewrite O1. rewrite Nat2Z.inj_succ in D. unfold Z.succ in D.
      pose proof (Zle_0_nat n).
      Z.to_euclidean_division_equations; lia.
    + lia.
    + exists r. repeat split; try assumption.
      rewrite Or, O1, Nat2Z.inj_succ. lia.
Qed.

(** X12: where the day ordinals are representable, seven iterations
    suffice for [prev_weekday]: it returns the last day strictly before
    the given day that falls on the wanted weekday, one to seven days
    earlier. *)
Theorem prev_weekday_last (cd : civil_day) wd (fuel : nat) :
  reachable day_tag cd ->
  in_int (ordinal_of cd) -> in_int (ordinal_of cd - 7) ->
  (7 <= fuel)%nat ->
  exists r,
    prev_weekday fuel cd wd = Some r /\
    get_weekday r = wd /\
    ordinal_of r
    = ordinal_of cd - ((ordinal_of cd - 1 - thu_offset wd) mod 7 + 1) /\
    1 <= ordinal_of cd - ordinal_of r <= 7 /\
    (forall cd' : civil_day,
        reachable day_tag cd' ->
        ordinal_of r < ordinal_of cd' < ordinal_of cd ->
        get_weekday cd' <> wd).
Proof.
  intros R I I7 Hf.
  set (t := (ordinal_of cd - 1 - thu_offset wd) mod 7).
  assert (Ht : 0 <= t < 7) by (apply Z.mod_pos_bound; lia).
  assert (Et : Z.of_nat (Z.to_nat t) = t) by (apply Z2Nat.id; lia).
  destruct (prev_weekday_steps wd (Z.to_nat t) cd fuel R I)
    as (r & E & Rr & Or).
  - rewrite Et. unfold in_int, int_min, int_max in *. lia.
  - rewrite Et. reflexivity.
  - lia.
  - rewrite Et in Or.
    assert (Ir : in_int (ordinal_of r))
      by (rewrite Or; unfold in_int, int_min, int_max in *; lia).
    exists r. split; [exact E |].
    split.
    { apply get_weekday_offset; try assumption. rewrite Or.
      unfold t. destruct wd; cbn [thu_offset];
        Z.to_euclidean_division_equations; lia. }
    split; [rewrite Or; lia |]. split; [lia |].
    intros cd' R' B W.
    assert (I' : in_int (ordinal_of cd'))
      by (unfold in_int, int_min, int_max in *; lia).
    apply get_weekday_offset in W; try assumption.
    unfold t in *. destruct wd; cbn [thu_offset] in *;
      Z.to_euclidean_division_equations; lia.
Qed.

Lemma prev_weekday_last_witness :
  exists r,
    prev_weekday 7 (make day_tag 2000 2 29 0 0 0) tuesday = Some r /\
    get_weekday r = tuesday /\
    ordinal_of r
    = ordinal_of (make day_tag 2000 2 29 0 0 0)
      - ((ordinal_of (make day_tag 2000 2 29 0 0 0) - 1
          - thu_offset tuesday) mod 7 + 1) /\
    1 <= ordinal_of (make day_tag 2000 2 29 0 0 0) - ordinal_of r <= 7 /\
    (forall cd' : civil_day,
        reachable day_tag cd' ->
        ordinal_of r < ordinal_of cd'
          < ordinal_of (make day_tag 2000 2 29 0 0 0) ->
        get_weekday cd' <> tuesday).
Proof.
  apply (prev_weekday_last (make day_tag 2000 2 29 0 0 0) tuesday 7).
  - apply reach_make; unfold in_int, int_min, int_max; lia.
  - vm_compute. split; discriminate.
  - vm_compute. split; discriminate.
  - lia.
Defined.

(** ** Stepping by zero *)

Lemma n_mon_canonical Y M D h mi s :
  in_int Y -> valid_date Y M D ->
  n_mon Y M D 0 h mi s = Fields Y M D h mi s.
Proof.
  intros HY [HM HD].
  rewrite n_mon_norm by (assumption || int_arith).
  replace ((M - 1) / 12) with 0 by int_arith.
  replace ((M - 1) mod 12 + 1) with M by int_arith.
  rewrite Z.add_0_r, wrap_id by assumption.
  apply n_day_canonical; [assumption | split; assumption].
Qed.

Lemma n_hour_canonical Y M D H mi s :
  in_int Y -> valid_date Y M D -> 0 <= H < 24 ->
  n_hour Y M D 0 H mi s = Fields Y M D H mi s.
Proof.
  intros HY V HH. unfold n_hour.
  destruct (Z.ltb_spec (H %i 24) 0) as [L | L]; [int_arith |]. cbv zeta.
  replace (0 +i H /i 24) with 0 by int_arith.
  replace (H %i 24) with H by int_arith.
  apply n_mon_canonical; assumption.
Qed.

Lemma n_min_canonical Y M D H Mi s :
  in_int Y -> valid_date Y M D -> 0 <= H < 24 -> 0 <= Mi < 60 ->
  n_min Y M D H 0 Mi s = Fields Y M D H Mi s.
Proof.
  intros HY V HH HMi. unfold n_min.
  destruct (Z.ltb_spec (Mi %i 60) 0) as [L | L]; [int_arith |]. cbv zeta.
  replace (H /i 24 +i (0 +i Mi /i 60) /i 24) with 0 by int_arith.
  replace (H %i 24 +i (0 +i Mi /i 60) %i 24) with H by int_arith.
  replace (Mi %i 60) with Mi by int_arith.
  apply n_hour_canonical; assumption.
Qed.

Lemma step_zero_any T f : well_formed T f -> step T f 0 = f.
Proof.
  intros (HY & C & A). pose proof C as (HM & HD & HH & HMi & HS).
  assert (V : valid_date (y f) (m f) (d f)) by (split; assumption).
  destruct f as [Y M D H Mi S]. cbn [y m d hh mm ss] in *.
  destruct T; unfold step; cbn [y m d hh mm ss].
  - change (0 /i 60) with 0. change (0 %i 60) with 0.
    replace (Mi +i 0) with Mi by int_arith.
    replace (S +i 0) with S by int_arith.
    apply (n_sec_canonical (Fields Y M D H Mi S)); assumption.
  - change (0 /i 60) with 0. change (0 %i 60) with 0.
    replace (Mi +i 0) with Mi by int_arith.
    replace (H +i 0) with H by int_arith.
    apply n_min_canonical; assumption.
  - change (0 /i 24) with 0. change (0 %i 24) with 0.
    pose proof (days_per_month_range Y M HM).
    replace (D +i 0) with D by int_arith.
    replace (H +i 0) with H by int_arith.
    apply n_hour_canonical; assumption.
  - apply n_day_canonical; assumption.
  - change (0 /i 12) with 0. change (0 %i 12) with 0.
    replace (Y +i 0) with Y by int_arith.
    replace (M +i 0) with M by int_arith.
    apply n_mon_canonical; assumption.
  - replace (Y +i 0) with Y by int_arith. reflexivity.
Qed.

(** X13: stepping by zero changes nothing, for every value and every
    stepping operator, also next to the ends of the [int] range. *)
Theorem step_by_zero T (a : civil_time T) :
  reachable T a ->
  plus_assign a 0 = a /\ minus_assign a 0 = a /\
  plus a 0 = a /\ minus a 0 = a.
Proof.
  intros R. pose proof (reachable_well_formed T a R) as W.
  pose proof (step_zero_any T (f_ a) W) as E.
  destruct a as [f]. cbn [f_] in *.
  unfold plus_assign, minus_assign, plus, minus. cbn [f_].
  change (negb (0 =? int_min)) with true. cbv iota.
  change (Int.neg 0) with 0. rewrite E.
  rewrite of_fields_well_formed by assumption. tauto.
Qed.

Lemma step_by_zero_witness :
  plus_assign (make day_tag 2147483647 12 31 0 0 0) 0
  = make day_tag 2147483647 12 31 0 0 0.
Proof.
  refine (proj1 (step_by_zero day_tag
                   (make day_tag 2147483647 12 31 0 0 0) _)).
  apply reach_make; unfold in_int, int_min, int_max; lia.
Defined.

(** ** More on conversions, borrows and round trips *)

(** X14: narrowing keeps the order: when [a <= b], also across different
    alignments, the two values converted to one alignment are still in
    that order. *)
Theorem narrowing_monotone T U1 U2 (a : civil_time U1) (b : civil_time U2) :
  implb (le a b) (le (convert T a) (convert T b)) = true.
Proof.
  destruct a as [[Y1 M1 D1 H1 Mi1 S1]]. destruct b as [[Y2 M2 D2 H2 Mi2 S2]].
  unfold le. destruct (lt (convert T _) (convert T _)) eqn:L;
    [| destruct (negb _); reflexivity].
  cut (lt (CivilTime (T:=U2) (Fields Y2 M2 D2 H2 Mi2 S2))
          (CivilTime (T:=U1) (Fields Y1 M1 D1 H1 Mi1 S1)) = true);
    [intros ->; reflexivity |].
  unfold lt, convert, of_fields, year, month, day, hour, minute, second in *.
  cbn [f_] in *.
  destruct T; cbn [align y m d hh mm ss] in L;
    repeat (rewrite orb_true_iff in L || rewrite andb_true_iff in L);
    repeat (rewrite orb_true_iff || rewrite andb_true_iff);
    rewrite ?Z.ltb_lt, ?Z.eqb_eq in *; cbn [y m d hh mm ss];
    intuition lia.
Qed.

(** X15: a day field of zero is borrowed from the month before: within the
    supported range, day 0 of a month is the last day of the previous
    month, December of the previous year for January. *)
Theorem day_zero_borrow Y M :
  safe_year Y -> 1 <= M <= 12 ->
  make day_tag Y M 0 0 0 0
  = make day_tag (norm_year Y (M - 1)) (norm_month (M - 1))
      (days_per_month (norm_year Y (M - 1)) (norm_month (M - 1))) 0 0 0.
Proof.
  intros Ys HM. unfold safe_year in Ys.
  set (Y' := norm_year Y (M - 1)). set (M' := norm_month (M - 1)).
  assert (HM' : 1 <= M' <= 12)
    by (unfold M', norm_month; Z.to_euclidean_division_equations; lia).
  assert (HY' : Y - 1 <= Y' <= Y)
    by (unfold Y', norm_year; Z.to_euclidean_division_equations; lia).
  pose proof (days_per_month_range Y' M' HM') as R.
  apply make_eq_ordinal;
    try (unfold year_ok, in_int, int_min, int_max; lia).
  rewrite (raw_ordinal_canonical Y' M') by assumption.
  rewrite raw_ordinal_canonical by assumption.
  replace (days_per_month Y' M') with (0 + days_per_month Y' M') by lia.
  rewrite !day_ordinal_day.
  replace 0 with (1 + -1) at 1 by lia. rewrite day_ordinal_day.
  cut (day_ordinal Y M 1 = day_ordinal Y' M' 1 + days_per_month Y' M');
    [pose proof (day_ordinal_day Y' M' 0 1) as Q; cbn in Q; lia |].
  destruct (Z.eq_dec M 1) as [-> | NM].
  - assert (EY : Y' = Y - 1) by (unfold Y', norm_year; reflexivity).
    assert (EM : M' = 12) by (unfold M', norm_month; reflexivity).
    rewrite EY, EM, <- december_ordinal. f_equal. lia.
  - assert (EY : Y' = Y)
      by (unfold Y', norm_year; Z.to_euclidean_division_equations; lia).
    assert (EM : M' = M - 1)
      by (unfold M', norm_month; Z.to_euclidean_division_equations; lia).
    rewrite EY, EM, <- days_per_month_ordinal by lia. f_equal. lia.
Qed.

Lemma day_zero_borrow_witness :
  make day_tag 2016 3 0 0 0 0
  = make day_tag (norm_year 2016 (3 - 1)) (norm_month (3 - 1))
      (days_per_month (norm_year 2016 (3 - 1)) (norm_month (3 - 1))) 0 0 0.
Proof.
  apply day_zero_borrow.
  - vm_compute. split; discriminate.
  - lia.
Defined.

(** X16: within the supported range, stepping by [n] moves a value exactly
    [n] units of its alignment along the time line; a year-aligned value
    gets the year [year + n] reduced to [int]. *)
Theorem stepping_exact T (a : civil_time T) n :
  reachable T a -> safe_year (year a) -> in_int n ->
  (T <> year_tag ->
   units T (f_ (plus_assign a n)) = units T (f_ a) + n /\
   units T (f_ (plus a n)) = units T (f_ a) + n) /\
  (T = year_tag -> year (plus_assign a n) = year a +i n).
Proof.
  intros R Ys Hn. pose proof (reachable_well_formed T a R) as W.
  unfold safe_year, year in Ys.
  split.
  - intros NT.
    assert (P : plus a n = plus_assign a n)
      by (unfold plus, plus_assign;
          apply of_fields_well_formed, step_well_formed, W).
    rewrite P. cut (units T (f_ (plus_assign a n)) = units T (f_ a) + n);
      [tauto |].
    unfold plus_assign. cbn [f_].
    apply (step_units T (f_ a) n NT W); [unfold year_step_ok; lia |].
    assumption.
  - intros ->. reflexivity.
Qed.

Lemma stepping_exact_witness :
  units month_tag (f_ (plus_assign (make month_tag 1999 12 1 0 0 0) 14))
  = units month_tag (f_ (make month_tag 1999 12 1 0 0 0)) + 14.
Proof.
  refine (proj1 (proj1 (stepping_exact month_tag
                          (make month_tag 1999 12 1 0 0 0) 14 _ _ _) _)).
  - apply reach_make; unfold in_int, int_min, int_max; lia.
  - vm_compute. split; discriminate.
  - unfold in_int, int_min, int_max. lia.
  - discriminate.
Defined.

(** X17: within the supported range, binary [-] undoes binary [+] for
    every count but the minimum [int]; for the minimum [int], whose
    negation is itself, the value ends [2^32] units earlier instead. *)
Theorem binary_round_trip T (a : civil_time T) n :
  reachable T a -> safe_year (year a) -> in_int n ->
  (n <> int_min -> minus (plus a n) n = a) /\
  (T <> year_tag ->
   units T (f_ (minus (plus a int_min) int_min))
   = units T (f_ a) - 4294967296).
Proof.
  intros R Ys Hn. pose proof (reachable_well_formed T a R) as W.
  unfold safe_year, year in Ys.
  assert (Y0 : year_step_ok (y (f_ a))) by (unfold year_step_ok; lia).
  assert (P : forall k, plus a k = plus_assign a k)
    by (intros k; unfold plus, plus_assign;
        apply of_fields_well_formed, step_well_formed, W).
  split.
  - intros NE. rewrite P. unfold minus, plus_assign. cbn [f_].
    assert (En : Int.neg n = - n) by int_arith.
    rewrite En, step_compose;
      try assumption; try lia;
      try (unfold in_int, int_min, int_max in *; lia).
    rewrite Z.add_opp_diag_r, step_zero by assumption.
    destruct a as [f]. cbn [f_] in *.
    apply of_fields_well_formed, W.
  - intros NT. rewrite P. unfold minus, plus_assign. cbn [f_].
    change (Int.neg int_min) with int_min.
    assert (Imin : in_int int_min)
      by (unfold in_int, int_min, int_max; lia).
    destruct (step_units T (f_ a) int_min NT W Y0 Imin) as (U1 & B1).
    pose proof (step_well_formed T (f_ a) int_min W) as W1.
    assert (Y1 : year_step_ok (y (step T (f_ a) int_min)))
      by (unfold year_step_ok; lia).
    destruct (step_units T (step T (f_ a) int_min) int_min NT W1 Y1 Imin)
      as (U2 & _).
    rewrite of_fields_well_formed by (apply step_well_formed, W1).
    cbn [f_]. rewrite U2, U1. unfold int_min. lia.
Qed.

Lemma binary_round_trip_witness :
  minus (plus (make second_tag 1999 12 31 23 59 59) int_max) int_max
  = make second_tag 1999 12 31 23 59 59.
Proof.
  refine (proj1 (binary_round_trip second_tag
                   (make second_tag 1999 12 31 23 59 59) int_max _ _ _) _).
  - apply reach_make; unfold in_int, int_min, int_max; lia.
  - vm_compute. split; discriminate.
  - unfold in_int, int_min, int_max. lia.
  - discriminate.
Defined.
